(** * camera-trigger: the OMRON V430-F driver of [scanner.ts]

    A shallow embedding of [src/scanner.ts]: the range-finder callback
    ([timedReportCallback]), the camera driver ([V430F_Driver]) and the
    decoder of the camera's answer ([captureResult]).

    JavaScript values are modelled as the program has them:
    - a [number] is an IEEE 754 binary64 float ([PrimFloat.float]);
    - a [string] is a sequence of UTF-16 code units ([list N]);
    - a [Buffer] is a sequence of bytes ([list byte]);
    - the object [fields] is a finite map from property names to values
      ([gmap string jsval]);
    - an [async] method is its synchronous prefix, run at the call, and
      one continuation per [await], run when the awaited promise settles. *)

From Stdlib Require Import Floats ZArith NArith Ascii String.
From Stdlib Require Import DecimalString DecimalNat.
From Stdlib Require Import QArith Qfield.
From Stdlib.Strings Require Import Byte.
From stdpp Require Import gmap strings list fin_maps.

Local Open Scope N_scope.

(** ** JavaScript strings *)

Module JSString.

(** A string literal of the source, as code units. *)
Definition lit (s : string) : list N :=
  map N_of_ascii (list_ascii_of_string s).

(** [s.slice(a, b)] and [s.slice(a)] for the non-negative constant
    arguments the source uses. *)
Definition slice (a b : nat) (s : list N) : list N :=
  take (b - a) (drop a s).

Definition slice_from (a : nat) (s : list N) : list N := drop a s.

(** WhiteSpace and LineTerminator code units, the ones [trim] strips. *)
Definition is_space (c : N) : bool :=
  (c =? 9) || (c =? 10) || (c =? 11) || (c =? 12) || (c =? 13) || (c =? 32)
  || (c =? 0xA0) || (c =? 0x1680) || ((0x2000 <=? c) && (c <=? 0x200A))
  || (c =? 0x2028) || (c =? 0x2029) || (c =? 0x202F) || (c =? 0x205F)
  || (c =? 0x3000) || (c =? 0xFEFF).

Fixpoint trimStart (s : list N) : list N :=
  match s with
  | c :: s' => if is_space c then trimStart s' else s
  | [] => []
  end.

Definition trimEnd (s : list N) : list N := rev (trimStart (rev s)).

Definition trim (s : list N) : list N := trimEnd (trimStart s).

(** [s.startsWith(p)], used by [indexOf]. *)
Fixpoint starts (p s : list N) : bool :=
  match p, s with
  | [], _ => true
  | a :: p', b :: s' => (a =? b) && starts p' s'
  | _ :: _, [] => false
  end.

(** [s.indexOf(p)]: the first position where [p] occurs, or -1. *)
Fixpoint indexOf_at (p s : list N) (i : Z) : Z :=
  if starts p s then i
  else match s with
       | [] => (-1)%Z
       | _ :: s' => indexOf_at p s' (i + 1)%Z
       end.

Definition indexOf (p s : list N) : Z := indexOf_at p s 0%Z.

(** [s.split(sep)] for a separator of one code unit. *)
Fixpoint split (sep : N) (s : list N) : list (list N) :=
  match s with
  | [] => [[]]
  | c :: s' =>
      if c =? sep then [] :: split sep s'
      else match split sep s' with
           | p :: ps => (c :: p) :: ps
           | [] => [[c]]
           end
  end.

(** [s.replace(/\u001e/g, '<RS>')]. *)
Definition replace_RS (s : list N) : list N :=
  flat_map (fun c => if c =? 0x1E then lit "<RS>" else [c]) s.

(** [s.match(/[4-9]D/)] is not null: the unanchored pattern occurs. *)
Fixpoint match_4to9_D (s : list N) : bool :=
  match s with
  | c :: s' =>
      match s' with
      | d :: _ => (52 <=? c) && (c <=? 57) && (d =? 68)
      | [] => false
      end || match_4to9_D s'
  | [] => false
  end.

(** [s.match(/1[0-6]D/)] is not null. *)
Fixpoint match_1_0to6_D (s : list N) : bool :=
  match s with
  | c :: s' =>
      match s' with
      | d :: e :: _ => (c =? 49) && (48 <=? d) && (d <=? 54) && (e =? 68)
      | _ => false
      end || match_1_0to6_D s'
  | [] => false
  end.

End JSString.

(** ** Node.js buffers *)

Module Buffer.

(** The state of the UTF-8 decoder inside a multi-byte sequence: the
    continuation bytes still expected, the code point so far and the
    range allowed for the next byte. *)
Record utf8_state := {
  rem : nat;
  cp : N;
  lower : N;
  upper : N
}.

(** A byte met outside a sequence: what it emits and the state after. *)
Definition utf8_lead (b : N) : list N * option utf8_state :=
  if b <=? 0x7F then ([b], None)
  else if (0xC2 <=? b) && (b <=? 0xDF) then
    ([], Some {| rem := 1; cp := N.land b 0x1F; lower := 0x80; upper := 0xBF |})
  else if (0xE0 <=? b) && (b <=? 0xEF) then
    ([], Some {| rem := 2; cp := N.land b 0xF;
                 lower := if b =? 0xE0 then 0xA0 else 0x80;
                 upper := if b =? 0xED then 0x9F else 0xBF |})
  else if (0xF0 <=? b) && (b <=? 0xF4) then
    ([], Some {| rem := 3; cp := N.land b 0x7;
                 lower := if b =? 0xF0 then 0x90 else 0x80;
                 upper := if b =? 0xF4 then 0x8F else 0xBF |})
  else ([0xFFFD], None).

(** UTF-8 decoding to code points; an ill-formed sequence gives U+FFFD
    and the offending byte is read again as the start of a sequence. *)
Fixpoint utf8_decode (st : option utf8_state) (bs : list byte) : list N :=
  match bs with
  | [] => match st with None => [] | Some _ => [0xFFFD] end
  | x :: bs' =>
      let b := Byte.to_N x in
      match st with
      | None => let '(out, st') := utf8_lead b in out ++ utf8_decode st' bs'
      | Some s =>
          if (lower s <=? b) && (b <=? upper s) then
            let c := N.lor (N.shiftl (cp s) 6) (N.land b 0x3F) in
            match rem s with
            | S (S r) =>
                utf8_decode
                  (Some {| rem := S r; cp := c; lower := 0x80; upper := 0xBF |})
                  bs'
            | _ => c :: utf8_decode None bs'
            end
          else
            let '(out, st') := utf8_lead b in
            0xFFFD :: out ++ utf8_decode st' bs'
      end
  end.

(** A code point as UTF-16 code units. *)
Definition utf16 (c : N) : list N :=
  if c <? 0x10000 then [c]
  else [0xD800 + (c - 0x10000) / 0x400; 0xDC00 + (c - 0x10000) mod 0x400].

(** [buf.toString()] *)
Definition toString (data : list byte) : list N :=
  flat_map utf16 (utf8_decode None data).

(** [buf.toString('utf-8', start, end)] *)
Definition toString_range (data : list byte) (start stop : nat) : list N :=
  toString (take (stop - start) (drop start data)).

(** [buf.indexOf(value, byteOffset)] for a byte value: the first
    position at or after [byteOffset] holding it, or -1. *)
Fixpoint indexOf_at (v : byte) (data : list byte) (i : nat) : Z :=
  match data with
  | [] => (-1)%Z
  | x :: data' =>
      if Byte.eqb x v then Z.of_nat i else indexOf_at v data' (S i)
  end.

Definition indexOf (data : list byte) (v : byte) (byteOffset : nat) : Z :=
  indexOf_at v (drop byteOffset data) byteOffset.

(** [Buffer.from(s)] for a literal of ASCII characters. *)
Definition from (s : string) : list byte := list_byte_of_string s.

End Buffer.

(** ** The decoder of the camera's answer ([captureResult], lines 133-222) *)

Import JSString.

(** A value stored in [fields]: a string, or [undefined] when it was read
    from an array index that does not exist. *)
Inductive jsval :=
| undefined
| JStr (s : list N).

(** How a block of statements ends: normally, or by the TypeError of a
    property read on [undefined]. *)
Inductive completion (A : Type) :=
| Return (a : A)
| TypeError.
Arguments Return {A} a.
Arguments TypeError {A}.

(** [parts[i]] *)
Definition at_index (parts : list (list N)) (i : nat) : jsval :=
  match parts !! i with
  | Some p => JStr p
  | None => undefined
  end.

(** The character of a one-character literal. *)
Definition chr (a : ascii) : N := N_of_ascii a.

(** [if (v)] for a value read from [fields]. *)
Definition truthy (v : option jsval) : bool :=
  match v with
  | Some (JStr (_ :: _)) => true
  | _ => false
  end.

(** [fields['distributor'] == 'Digi-Key'] *)
Definition is_DigiKey (fields : gmap string jsval) : bool :=
  match fields !! "distributor" with
  | Some (JStr s) => bool_decide (s = lit "Digi-Key")
  | _ => false
  end.

(** [fields[k] = v], for the assignments of one segment in order. *)
Definition assign_all (fields : gmap string jsval)
  (ws : list (string * jsval)) : gmap string jsval :=
  foldl (fun f w => <[w.1 := w.2]> f) fields ws.

(** The if/else chain of lines 158-220 on one segment: the assignments
    to [fields] it performs, in order. *)
Definition captureResult_rule (fields : gmap string jsval) (field : list N)
  : completion (list (string * jsval)) :=
  if decide (slice 0 4 field = lit "GWCR") then
    let parts := split (chr "|") field in
    match parts !! 3%nat with
    | Some p3 =>
        Return [("mfg_pn", at_index parts 0);
                ("qty", at_index parts 1);
                ("date_code", at_index parts 2);
                ("coo", JStr (slice 5 7 p3));
                ("traceability", JStr (slice_from 7 p3))]
    | None => TypeError
    end
  else if (0 <=? indexOf (lit "[)>") field)%Z then
    Return [("signature", JStr field)]
  else if decide (slice 0 2 field = lit "1P") then
    Return [("mfg_pn", JStr (slice_from 2 field))]
  else if decide (slice 0 2 field = lit "1V") then
    Return [("manufacturer", JStr (slice_from 2 field))]
  else if decide (slice 0 2 field = lit "1T") then
    Return [("traceability", JStr (slice_from 2 field))]
  else if decide (slice 0 2 field = lit "4L") then
    Return [("coo", JStr (slice_from 2 field))]
  else if decide (field !! 0%nat = Some (chr "P")) then
    Return [("product", JStr (slice_from 1 field))]
  else if decide (field !! 0%nat = Some (chr "Q")) then
    Return [("qty", JStr (slice_from 1 field))]
  else if decide (field !! 0%nat = Some (chr "S")) then
    Return [("serial", JStr (slice_from 1 field))]
  else if match_4to9_D (slice 0 2 field) then
    Return [("date_code", JStr (slice_from 2 field))]
  else if match_1_0to6_D (slice 0 3 field) then
    Return [("date_code", JStr (slice_from 3 field))]
  else if decide (field !! 0%nat = Some (chr "K")) then
    if decide (length field = 1%nat) then
      Return [("distributor", JStr (lit "Digi-Key"))]
    else
      Return [("order_no", JStr (slice_from 1 field))]
  else if is_DigiKey fields then
    if decide (slice 0 2 field = lit "1K") then
      Return [("order_no", JStr (slice_from 2 field))]
    else if decide (slice 0 3 field = lit "4K") then
      Return [("line_no", JStr (slice_from 2 field))]
    else if decide (slice 0 3 field = lit "10K") then
      Return [("invoice_no", JStr (slice_from 3 field))]
    else if decide (slice 0 3 field = lit "11K") then
      Return [("line_no", JStr (slice_from 3 field))]
    else if decide (slice 0 3 field = lit "11Z") then
      Return [("pick", JStr (slice_from 3 field))]
    else if decide (slice 0 3 field = lit "12Z") then
      Return [("part_id", JStr (slice_from 3 field))]
    else if decide (slice 0 3 field = lit "13Z") then
      Return [("load_id", JStr (slice_from 3 field))]
    else if decide (slice 0 3 field = lit "20Z") then
      Return []
    else
      Return []
  else if decide (slice 0 3 field = lit "11K") then
    Return [("invoice_no", JStr (slice_from 3 field))]
  else if decide (slice 0 3 field = lit "14K") then
    Return [("line_no", JStr (slice_from 3 field))]
  else
    Return [("unknown", JStr field)].

(** [[4,13,10,30].includes(b)] *)
Definition is_trailer (b : byte) : bool :=
  let n := Byte.to_N b in (n =? 4) || (n =? 13) || (n =? 10) || (n =? 30).

(** The loop of lines 151-153: [endpos] after the trailing control bytes
    are skipped. *)
Fixpoint captureResult_endpos (data : list byte) (endpos : nat) : nat :=
  match endpos with
  | O => O
  | S e =>
      match data !! e with
      | Some b => if is_trailer b then captureResult_endpos data e else endpos
      | None => endpos
      end
  end.

(** The group separator, [0x1d]. *)
Definition separator : byte := x1d.

(** What the decoding of one answer gives: nothing to decode, the
    [fields] object, or a TypeError. [Fields] also carries the
    assignments that built the object, one list per segment in the order
    of the segments. *)
Inductive decoded :=
| NoRead
| Fields (fields : gmap string jsval) (trace : list (list (string * jsval)))
| Raised.

(** The do-while loop of lines 154-222. One unit of [fuel] is one
    iteration; [None] means the fuel ran out. *)
Fixpoint captureResult_loop (fuel : nat) (data : list byte)
  (endpos prevpos : nat) (fields : gmap string jsval)
  (trace : list (list (string * jsval))) : option decoded :=
  match fuel with
  | O => None
  | S fuel' =>
      let i := Buffer.indexOf data separator prevpos in
      let pos := if (i <? 0)%Z then endpos else Z.to_nat i in
      let field := replace_RS (trim (Buffer.toString_range data prevpos pos)) in
      match captureResult_rule fields field with
      | TypeError => Some Raised
      | Return ws =>
          let fields' := assign_all fields ws in
          let trace' := trace ++ [ws] in
          let prevpos' := (pos + 1)%nat in
          if (prevpos' <? endpos)%nat then
            captureResult_loop fuel' data endpos prevpos' fields' trace'
          else Some (Fields fields' trace')
      end
  end.

(** The test of line 137 on the trimmed text of the whole answer. *)
Definition captureResult_noread (data : list byte) : bool :=
  let result := trim (Buffer.toString data) in
  bool_decide (result = []) || (0 <=? indexOf (lit "NOREAD") result)%Z.

(** Lines 133-222 of [captureResult]: from the answer to [fields]. *)
Definition captureResult_decode (data : list byte) : option decoded :=
  if captureResult_noread data then Some NoRead
  else
    captureResult_loop (S (length data)) data
      (captureResult_endpos data (length data)) 0 ∅ [].

(** ** The driver and the event loop around it *)

(** The fields of [V430F_Driver] that change. A socket and a timer are
    known by a number given when they are created; [_captureTimeout]
    keeps its [Timeout] object after [clearTimeout], and an object is
    truthy. *)
Record V430F_Driver := {
  _sock : option nat;
  _captureTimeout : option nat;
  _targetPattern : option bool
}.

(** What waits for the promise of [connect()]: the rest of
    [triggerCapture] (lines 120-128), the rest of [setTargetPattern]
    (lines 80-84), or nothing (the call of [startDemo]). *)
Inductive awaiting :=
| rest_of_triggerCapture
| rest_of_setTargetPattern (enabled : bool)
| nothing.

(** What the program sends out. *)
Inductive output :=
| SockWrite (sock : nat) (text : string)
| PlayNotes (notes : string)
| HttpGetSearch (mfg_pn : option jsval)
| WriteData (data : list byte) (fields : gmap string jsval)
| WriteImage.

(** The program between two callbacks: the driver, the globals [buzzer]
    and [lastMeasures], the timers still armed, the sockets still
    connecting with what awaits each, the image downloads under way and
    everything sent so far. The console and the clock are left out. *)
Record World := {
  camera : V430F_Driver;
  buzzer : bool;
  lastMeasures : list float;
  timers : gset nat;
  connecting : list (nat * awaiting);
  downloads : nat;
  fresh : nat;
  sent : list output
}.

Definition set_camera (c : V430F_Driver) (w : World) : World :=
  {| camera := c; buzzer := buzzer w; lastMeasures := lastMeasures w;
     timers := timers w; connecting := connecting w;
     downloads := downloads w; fresh := fresh w; sent := sent w |}.

Definition set_lastMeasures (l : list float) (w : World) : World :=
  {| camera := camera w; buzzer := buzzer w; lastMeasures := l;
     timers := timers w; connecting := connecting w;
     downloads := downloads w; fresh := fresh w; sent := sent w |}.

Definition set_timers (t : gset nat) (w : World) : World :=
  {| camera := camera w; buzzer := buzzer w; lastMeasures := lastMeasures w;
     timers := t; connecting := connecting w;
     downloads := downloads w; fresh := fresh w; sent := sent w |}.

Definition set_connecting (l : list (nat * awaiting)) (w : World) : World :=
  {| camera := camera w; buzzer := buzzer w; lastMeasures := lastMeasures w;
     timers := timers w; connecting := l;
     downloads := downloads w; fresh := fresh w; sent := sent w |}.

Definition set_downloads (n : nat) (w : World) : World :=
  {| camera := camera w; buzzer := buzzer w; lastMeasures := lastMeasures w;
     timers := timers w; connecting := connecting w;
     downloads := n; fresh := fresh w; sent := sent w |}.

Definition set_fresh (n : nat) (w : World) : World :=
  {| camera := camera w; buzzer := buzzer w; lastMeasures := lastMeasures w;
     timers := timers w; connecting := connecting w;
     downloads := downloads w; fresh := n; sent := sent w |}.

Definition emit (o : output) (w : World) : World :=
  {| camera := camera w; buzzer := buzzer w; lastMeasures := lastMeasures w;
     timers := timers w; connecting := connecting w;
     downloads := downloads w; fresh := fresh w; sent := sent w ++ [o] |}.

Definition set_sock (s : option nat) (w : World) : World :=
  set_camera {| _sock := s;
                _captureTimeout := _captureTimeout (camera w);
                _targetPattern := _targetPattern (camera w) |} w.

Definition set_captureTimeout (t : option nat) (w : World) : World :=
  set_camera {| _sock := _sock (camera w);
                _captureTimeout := t;
                _targetPattern := _targetPattern (camera w) |} w.

Definition set_targetPattern (p : option bool) (w : World) : World :=
  set_camera {| _sock := _sock (camera w);
                _captureTimeout := _captureTimeout (camera w);
                _targetPattern := p |} w.

Definition CRLF : string := String (ascii_of_nat 13) (String (ascii_of_nat 10) "").

(** The capture command, ['< >\r\n']. *)
Definition capture_command : string := "< >" +:+ CRLF.

(** ['<l'+(enabled?1:0)+'>\r\n'] *)
Definition target_command (enabled : bool) : string :=
  "<l" +:+ (if enabled then "1" else "0") +:+ ">" +:+ CRLF.

(** [connect()]: a new socket starts connecting; the promise settles
    when the socket is connected. *)
Definition connect (k : awaiting) (w : World) : World :=
  set_fresh (S (fresh w)) (set_connecting (connecting w ++ [(fresh w, k)]) w).

(** [setTimeout(..., 5000)] of line 124. *)
Definition setTimeout (w : World) : World :=
  set_fresh (S (fresh w))
    (set_timers ({[fresh w]} ∪ timers w)
       (set_captureTimeout (Some (fresh w)) w)).

Definition clearTimeout (t : nat) (w : World) : World :=
  set_timers (timers w ∖ {[t]}) w.

(** Lines 120-128 of [triggerCapture]. *)
Definition triggerCapture_rest (w : World) : World :=
  match _sock (camera w) with
  | None => w
  | Some s => setTimeout (emit (SockWrite s capture_command) w)
  end.

(** [triggerCapture()] up to its return or its [await]. *)
Definition triggerCapture (w : World) : World :=
  match _captureTimeout (camera w) with
  | Some _ => w
  | None =>
      match _sock (camera w) with
      | None => connect rest_of_triggerCapture w
      | Some _ => triggerCapture_rest w
      end
  end.

(** Lines 80-84 of [setTargetPattern]. *)
Definition setTargetPattern_rest (enabled : bool) (w : World) : World :=
  match _sock (camera w) with
  | None => w
  | Some s =>
      emit (SockWrite s (target_command enabled))
        (set_targetPattern (Some enabled) w)
  end.

(** [setTargetPattern(enabled)] up to its return or its [await]. *)
Definition setTargetPattern (enabled : bool) (w : World) : World :=
  if decide (_targetPattern (camera w) = Some enabled) then w
  else
    match _captureTimeout (camera w) with
    | Some _ => w
    | None =>
        match _sock (camera w) with
        | None => connect (rest_of_setTargetPattern enabled) w
        | Some _ => setTargetPattern_rest enabled w
        end
    end.

(** The socket [s] is connected (lines 64-68): [_sock] is set, the
    promise is resolved and what awaited it runs. *)
Definition socketConnected (s : nat) (w : World) : World :=
  match list_find (fun c => c.1 = s) (connecting w) with
  | None => w
  | Some (i, (_, k)) =>
      let w1 := set_sock (Some s) (set_connecting (delete i (connecting w)) w) in
      match k with
      | rest_of_triggerCapture => triggerCapture_rest w1
      | rest_of_setTargetPattern enabled => setTargetPattern_rest enabled w1
      | nothing => w1
      end
  end.

(** A socket is closed (lines 60-63). *)
Definition socketClosed (w : World) : World := set_sock None w.

(** The watchdog [t] expires (lines 124-128), if it is still armed. *)
Definition watchdogExpired (t : nat) (w : World) : World :=
  if decide (t ∈ timers w) then
    triggerCapture (set_captureTimeout None (clearTimeout t w))
  else w.

(** Lines 134-136 of [captureResult]: the watchdog is cancelled. *)
Definition captureResult_clearTimeout (w : World) : World :=
  match _captureTimeout (camera w) with
  | Some t => clearTimeout t w
  | None => w
  end.

(** [captureResult(data)] up to its return, its TypeError or its
    [await this.downloadImage(1)]. *)
Definition captureResult (data : list byte) (w : World) : World :=
  let w1 := captureResult_clearTimeout w in
  match captureResult_decode data with
  | Some NoRead =>
      let w2 := set_captureTimeout None w1 in
      if buzzer w2 then emit (PlayNotes "C48 C C ,C#8") w2 else w2
  | Some (Fields fields _) =>
      let w2 := if truthy (fields !! "mfg_pn")
                then emit (HttpGetSearch (fields !! "mfg_pn")) w1
                else if buzzer w1
                     then emit (PlayNotes "'F48 A C G ,C G C G C") w1
                     else w1 in
      let w3 := setTargetPattern false w2 in
      let w4 := emit (WriteData data fields) w3 in
      set_downloads (S (downloads w4)) w4
  | Some Raised => w1
  | None => w1
  end.

(** The image has arrived (lines 234-236). *)
Definition imageDownloaded (w : World) : World :=
  match downloads w with
  | O => w
  | S n => set_captureTimeout None (emit WriteImage (set_downloads n w))
  end.

(** ** The range-finder callback *)

Local Open Scope float_scope.

Definition THRESHOLD_DISTANCE_MM : float := 50.
Definition THRESHOLD_MAX_DEVIATION : float := 1.

(** A length as a [number]. *)
Definition number_of_nat (n : nat) : float :=
  PrimFloat.of_uint63 (Uint63.of_Z (Z.of_nat n)).

(** Lines 246-255 for an array of [n] measures: [avg] and [stddev]. *)
Definition statistics (measures : list float) : float * float :=
  let n := number_of_nat (length measures) in
  let sums := foldl (fun a x => (a.1 + x, a.2 + x * x)) (0, 0) measures in
  let avg := sums.1 / n in
  (avg, PrimFloat.sqrt (sums.2 / n - avg * avg)).

(** Lines 245-260: the new measure is pushed; with five measures or more
    the statistics are taken on the whole array, then the oldest measure
    is dropped. *)
Definition measure (value : float) (measures : list float)
  : list float * option (float * float) :=
  let pushed := measures ++ [value] in
  if (length pushed <? 5)%nat then (pushed, None)
  else (drop 1 pushed, Some (statistics pushed)).

(** [timedReportCallback(obj_fct, value)], where [value] stands for
    [value.get_averageValue()]. *)
Definition timedReportCallback (value : float) (w : World) : World :=
  let r := measure value (lastMeasures w) in
  let w' := set_lastMeasures r.1 w in
  match r.2 with
  | None => w'
  | Some (avg, stddev) =>
      if (avg <? THRESHOLD_DISTANCE_MM) && (stddev <? THRESHOLD_MAX_DEVIATION)
      then triggerCapture w'
      else if (avg <? THRESHOLD_DISTANCE_MM)
              || (THRESHOLD_MAX_DEVIATION <? stddev)
      then setTargetPattern true w'
      else if (THRESHOLD_DISTANCE_MM <? avg)
              && (stddev <? THRESHOLD_MAX_DEVIATION)
      then setTargetPattern false w'
      else w'
  end.

Local Close Scope float_scope.

(** ** Notions of the specification *)

(** The segments the loop of lines 154-222 visits: the values of
    [field], one per iteration, whatever the rules do with them. *)
Fixpoint captureResult_segments (fuel : nat) (data : list byte)
  (endpos prevpos : nat) : list (list N) :=
  match fuel with
  | O => []
  | S fuel' =>
      let i := Buffer.indexOf data separator prevpos in
      let pos := if (i <? 0)%Z then endpos else Z.to_nat i in
      let field := replace_RS (trim (Buffer.toString_range data prevpos pos)) in
      field ::
        (if (pos + 1 <? endpos)%nat
         then captureResult_segments fuel' data endpos (pos + 1)
         else [])
  end.

Definition segments (data : list byte) : list (list N) :=
  captureResult_segments (S (length data)) data
    (captureResult_endpos data (length data)) 0.

(** The values assigned to the key [k] by a decode, oldest first. *)
Definition writes_to (k : string) (trace : list (list (string * jsval)))
  : list jsval :=
  omap (fun w => if decide (w.1 = k) then Some w.2 else None) (concat trace).

(** What the test [fields['distributor'] == 'Digi-Key'] of line 194
    reads of [fields]: the least object on which it gives [dk]. *)
Definition DigiKey_context (dk : bool) : gmap string jsval :=
  if dk then {["distributor" := JStr (lit "Digi-Key")]} else ∅.

(** The assignments the if/else chain makes for one segment, from the
    segment and the outcome of the Digi-Key test alone, whatever keys
    are set already; none when it raises. *)
Definition rule_assignments (dk : bool) (field : list N)
  : list (string * jsval) :=
  match captureResult_rule (DigiKey_context dk) field with
  | Return ws => ws
  | TypeError => []
  end.

(** The assignments of successive segments: the Digi-Key test holds from
    the first segment [K] on. *)
Fixpoint assignments (dk : bool) (segs : list (list N))
  : list (list (string * jsval)) :=
  match segs with
  | [] => []
  | field :: segs' =>
      rule_assignments dk field
        :: assignments (dk || bool_decide (field = lit "K")) segs'
  end.

(** The rule table of the specification, as it words the matches.
    Rules 1 to 12 and 14 to 15 look at the segment alone. *)
Definition first_two_4to9_D (field : list N) : bool :=
  match field with
  | c :: d :: _ => (52 <=? c) && (c <=? 57) && (d =? 68)
  | _ => false
  end.

Definition first_three_10to16_D (field : list N) : bool :=
  match field with
  | c :: d :: e :: _ => (c =? 49) && (48 <=? d) && (d <=? 54) && (e =? 68)
  | _ => false
  end.

Definition first_char (a : ascii) (field : list N) : bool :=
  match field with
  | c :: _ => c =? chr a
  | [] => false
  end.

Definition matches_rule_1_to_12 (field : list N) : bool :=
  starts (lit "GWCR") field
  || (0 <=? indexOf (lit "[)>") field)%Z
  || starts (lit "1P") field || starts (lit "1V") field
  || starts (lit "1T") field || starts (lit "4L") field
  || first_char "P" field || first_char "Q" field || first_char "S" field
  || first_two_4to9_D field || first_three_10to16_D field
  || first_char "K" field.

Definition matches_rule_14_15 (field : list N) : bool :=
  starts (lit "11K") field || starts (lit "14K") field.

(** Rule 13: the prefixes of the Digi-Key context. *)
Definition matches_rule_13 (field : list N) : bool :=
  starts (lit "1K") field || starts (lit "4K") field
  || starts (lit "10K") field || starts (lit "11K") field
  || starts (lit "11Z") field || starts (lit "12Z") field
  || starts (lit "13Z") field || starts (lit "20Z") field.

(** The decisions of the TriggerController and its rule table. *)
Inductive TriggerDecision := Fire | Arm | Disarm | NoAction.

Definition TriggerController (mean stddev : float) : TriggerDecision :=
  if ((mean <? 50) && (stddev <? 1))%float then Fire
  else if ((mean <? 50) || (1 <? stddev))%float then Arm
  else if ((50 <? mean) && (stddev <? 1))%float then Disarm
  else NoAction.

(** What each decision asks of the camera. *)
Definition perform (d : TriggerDecision) (w : World) : World :=
  match d with
  | Fire => triggerCapture w
  | Arm => setTargetPattern true w
  | Disarm => setTargetPattern false w
  | NoAction => w
  end.

(** The measurement window after the samples [xs], from the empty array
    the program starts with. *)
Definition window_after (xs : list float) : list float :=
  foldl (fun measures x => (measure x measures).1) [] xs.

(** Successive reports of the range finder, oldest first. *)
Definition reports (values : list float) (w : World) : World :=
  foldl (fun w v => timedReportCallback v w) w values.

(** The mean and the population standard deviation the specification
    names, on exact numbers: the deviation is the number, not negative,
    whose square is the mean of the squared distances to the mean. *)
Definition population_mean (xs : list Q) : Q :=
  (foldr Qplus 0 xs / inject_Z (Z.of_nat (length xs)))%Q.

Definition population_variance (xs : list Q) : Q :=
  population_mean (map (fun x => (x - population_mean xs) ^ 2)%Q xs).

Definition is_population_stddev (xs : list Q) (s : Q) : Prop :=
  (0 <= s /\ s * s == population_variance xs)%Q.

(** What was written to the camera, and how many capture commands. *)
Definition wire (w : World) : list (nat * string) :=
  omap (fun o => match o with SockWrite s t => Some (s, t) | _ => None end)
       (sent w).

Definition captures_sent (w : World) : nat :=
  length (filter (fun c => c.2 = capture_command) (wire w)).

(** [if (this._captureTimeout)]: a capture is pending. *)
Definition capture_pending (w : World) : bool :=
  match _captureTimeout (camera w) with
  | Some _ => true
  | None => false
  end.

(** Every armed watchdog is the one [_captureTimeout] holds: at most one
    capture request is pending. *)
Definition one_request_pending (w : World) : Prop :=
  forall t, t ∈ timers w -> _captureTimeout (camera w) = Some t.

(** A call the range-finder callback makes on the camera. *)
Inductive camera_call :=
| call_triggerCapture
| call_setTargetPattern (enabled : bool).

Definition do_call (w : World) (c : camera_call) : World :=
  match c with
  | call_triggerCapture => triggerCapture w
  | call_setTargetPattern enabled => setTargetPattern enabled w
  end.

(** ** Worlds and answers used as examples *)

(** The program after [startDemo] and before the socket is connected. *)
Definition world_start : World :=
  {| camera := {| _sock := None; _captureTimeout := None;
                  _targetPattern := None |};
     buzzer := true; lastMeasures := []; timers := ∅; connecting := [];
     downloads := 0; fresh := 0; sent := [] |}.

(** Connected on socket 0, nothing pending, aim indicator on. *)
Definition world_idle : World :=
  {| camera := {| _sock := Some 0%nat; _captureTimeout := None;
                  _targetPattern := Some true |};
     buzzer := true; lastMeasures := []; timers := ∅; connecting := [];
     downloads := 0; fresh := 1; sent := [SockWrite 0 (target_command true)] |}.

(** [world_idle] after one [triggerCapture()]: a capture is pending. *)
Definition world_pending : World := triggerCapture world_idle.

(** Connected, with four measures of a close and steady object. *)
Definition world_close : World :=
  set_lastMeasures [48; 48; 48; 48]%float world_idle.

Definition GS : string := String (ascii_of_nat 29) "".

Definition answer_1P : list byte := Buffer.from "1P1234".
Definition answer_three : list byte :=
  Buffer.from ("1P1234" +:+ GS +:+ "1Vacme" +:+ GS +:+ "1T9999").
Definition answer_digikey : list byte := Buffer.from ("K" +:+ GS +:+ "1K4455").
Definition answer_1K_alone : list byte := Buffer.from "1K4455".
Definition answer_digikey_4K : list byte := Buffer.from ("K" +:+ GS +:+ "4K123").
Definition answer_digikey_other : list byte := Buffer.from ("K" +:+ GS +:+ "XYZ").
Definition answer_GWCR_short : list byte := Buffer.from "GWCR|A|B".
Definition answer_GWCR : list byte := Buffer.from "GWCR123|500|2214|ABCDEMY778899".
Definition answer_twice_1P : list byte := Buffer.from ("1PAAA" +:+ GS +:+ "1PBBB").
Definition answer_noread : list byte := Buffer.from ("NOREAD" +:+ CRLF).
Definition answer_noread_inside : list byte := Buffer.from "1PNOREADX".

(** ** The rest of the program: devices, start and events *)

Definition set_buzzer (b : bool) (w : World) : World :=
  {| camera := camera w; buzzer := b; lastMeasures := lastMeasures w;
     timers := timers w; connecting := connecting w;
     downloads := downloads w; fresh := fresh w; sent := sent w |}.

(** [deviceArrival(module)] (lines 270-285) for a module whose logical
    name is [lname]: the buzzer found becomes the global [buzzer]. The
    settings of the range finder are outside [World]; its reports are
    the calls of [timedReportCallback]. *)
Definition deviceArrival (lname : string) (w : World) : World :=
  if decide (lname = "FeederBuzzer") then set_buzzer true w else w.

(** [new V430F_Driver(ipaddr, port)] (lines 43-50). *)
Definition new_V430F_Driver : V430F_Driver :=
  {| _sock := None; _captureTimeout := None; _targetPattern := None |}.

(** The globals when the program is loaded (lines 31-33), with the
    driver [startDemo] creates. *)
Definition world_loaded : World :=
  {| camera := new_V430F_Driver; buzzer := false; lastMeasures := [];
     timers := ∅; connecting := []; downloads := 0; fresh := 0; sent := [] |}.

(** [startDemo()] (lines 300-320): when both hubs are registered the
    driver is created and its first [connect()] is started, with nothing
    awaiting it; otherwise the function returns before. *)
Definition startDemo (rangefinder_hub buzzer_hub : bool) : option World :=
  if rangefinder_hub && buzzer_hub
  then Some (connect nothing world_loaded)
  else None.

(** The promise of [downloadImage] is rejected: [captureResult] ends
    there, at its [await] of line 233. *)
Definition imageFailed (w : World) : World :=
  match downloads w with
  | O => w
  | S n => set_downloads n w
  end.

(** What can happen to the program between two callbacks. *)
Inductive event :=
| SampleArrived (value : float)
| DeviceArrived (lname : string)
| SocketConnected (s : nat)
| ConnectionClosed
| DataReceived (data : list byte)
| WatchdogExpired (t : nat)
| ImageDownloaded
| ImageFailed.

Definition step (w : World) (e : event) : World :=
  match e with
  | SampleArrived value => timedReportCallback value w
  | DeviceArrived lname => deviceArrival lname w
  | SocketConnected s => socketConnected s w
  | ConnectionClosed => socketClosed w
  | DataReceived data => captureResult data w
  | WatchdogExpired t => watchdogExpired t w
  | ImageDownloaded => imageDownloaded w
  | ImageFailed => imageFailed w
  end.

Definition run (w : World) (es : list event) : World := foldl step w es.

(** The keys the decoder assigns. *)
Definition known_keys : list string :=
  ["mfg_pn"; "manufacturer"; "traceability"; "coo"; "product"; "qty";
   "serial"; "date_code"; "distributor"; "order_no"; "line_no";
   "invoice_no"; "pick"; "part_id"; "load_id"; "signature"; "unknown"].

(** A segment that starts with GWCR and has fewer than four parts. *)
Definition GWCR_short (field : list N) : Prop :=
  slice 0 4 field = lit "GWCR"
  /\ (length (filter (fun c => c = chr "|") field) < 3)%nat.

(** The aim commands written to the camera, oldest first. *)
Definition aim_commands (w : World) : list bool :=
  omap (fun c : nat * string =>
          if decide (c.2 = target_command true) then Some true
          else if decide (c.2 = target_command false) then Some false
          else None) (wire w).

(** What the program may send: one of the three commands of the camera,
    one of the two melodies, a search for a non-empty part number. *)
Definition expected_output (o : output) : Prop :=
  match o with
  | SockWrite _ t =>
      t = capture_command \/ t = target_command true
      \/ t = target_command false
  | PlayNotes notes =>
      notes = "C48 C C ,C#8" \/ notes = "'F48 A C G ,C G C G C"
  | HttpGetSearch v => truthy v = true
  | WriteData _ _ => True
  | WriteImage => True
  end.

(** A session that is connected, with no call waiting for a connection,
    at most one answer being processed and, while it is, the flag set
    and no watchdog armed. *)
Definition steady (w : World) : Prop :=
  is_Some (_sock (camera w))
  /\ one_request_pending w
  /\ Forall (fun c : nat * awaiting => c.2 = nothing) (connecting w)
  /\ (downloads w <= 1)%nat
  /\ ((0 < downloads w)%nat ->
      is_Some (_captureTimeout (camera w)) /\ timers w = ∅).

(** The events of a camera that stays connected and answers only a
    pending capture, one answer at a time. *)
Definition expected (w : World) (e : event) : Prop :=
  match e with
  | ConnectionClosed => False
  | DataReceived _ =>
      is_Some (_captureTimeout (camera w)) /\ downloads w = 0%nat
  | _ => True
  end.

Fixpoint all_expected (w : World) (es : list event) : Prop :=
  match es with
  | [] => True
  | e :: es' => expected w e /\ all_expected (step w e) es'
  end.

(** The flag is set and nothing is left to clear it: no watchdog armed,
    no download under way, no call waiting for a connection. *)
Definition wedged (w : World) : Prop :=
  is_Some (_captureTimeout (camera w))
  /\ timers w = ∅
  /\ downloads w = 0%nat
  /\ Forall (fun c : nat * awaiting => c.2 = nothing) (connecting w).

(** The watchdog of the pending request expires. *)
Definition watchdog_fires (w : World) : World :=
  match _captureTimeout (camera w) with
  | Some t => watchdogExpired t w
  | None => w
  end.

(** The prefixes read the same in every context, those of the Digi-Key
    context and those read when that context is not active, each with
    the key it fills. *)
Definition plain_prefixes : list (string * string) :=
  [("1P", "mfg_pn"); ("1V", "manufacturer"); ("1T", "traceability");
   ("4L", "coo"); ("P", "product"); ("Q", "qty"); ("S", "serial")].

Definition DigiKey_prefixes : list (string * string) :=
  [("1K", "order_no"); ("10K", "invoice_no"); ("11K", "line_no");
   ("11Z", "pick"); ("12Z", "part_id"); ("13Z", "load_id")].

Definition other_prefixes : list (string * string) :=
  [("11K", "invoice_no"); ("14K", "line_no")].

(** The aim commands among some outputs, oldest first. *)
Definition aims_of (l : list output) : list bool :=
  omap (fun o => match o with
                 | SockWrite _ t =>
                     if decide (t = target_command true) then Some true
                     else if decide (t = target_command false) then Some false
                     else None
                 | _ => None
                 end) l.

(** [w'] comes after [w]: it has sent what [w] had sent and then some
    expected outputs, and its aim state is the last aim command among
    them, or the aim state of [w] if there is none. *)
Definition comes_after (w w' : World) : Prop :=
  exists l,
    sent w' = sent w ++ l
    /\ Forall expected_output l
    /\ _targetPattern (camera w')
       = match last (aims_of l) with
         | Some b => Some b
         | None => _targetPattern (camera w)
         end.

(** Connected, with four equal measures of 60.3 mm. *)
Definition world_far : World :=
  set_lastMeasures (replicate 4 0x1.e266666666666p+5%float) world_idle.

(** ** The stamp of a capture (lines 143-146) *)

(** What the program reads of [new Date()]. *)
Record Date := {
  getFullYear : nat;
  getMonth : nat;
  getDate : nat;
  getHours : nat;
  getMinutes : nat;
  getSeconds : nat
}.

(** A non-negative integer as a string: its decimal digits. *)
Definition number_toString (n : nat) : list N :=
  lit (NilEmpty.string_of_uint (Nat.to_uint n)).

(** [s.slice(-n)] *)
Definition slice_last (n : nat) (s : list N) : list N :=
  drop (length s - n) s.

(** [('0' + n).slice(-2)] *)
Definition two_digits (n : nat) : list N :=
  slice_last 2 (lit "0" ++ number_toString n).

(** [stamp], the beginning of the names of the three files written. *)
Definition captureResult_stamp (now : Date) : list N :=
  let day := number_toString (getFullYear now) ++ lit "-"
             ++ two_digits (getMonth now + 1) ++ lit "-"
             ++ two_digits (getDate now) in
  let time := number_toString (getHours now) ++ lit "h"
              ++ two_digits (getMinutes now) ++ lit "m"
              ++ two_digits (getSeconds now) in
  day ++ lit "_" ++ time.

(** A date as the clock gives it: month 0 to 11, day 1 to 31, and so on. *)
Definition clock_date (now : Date) : Prop :=
  (getMonth now < 12 /\ 1 <= getDate now <= 31 /\ getHours now < 24
   /\ getMinutes now < 60 /\ getSeconds now < 60)%nat.

Definition is_digit (c : N) : Prop := 48 <= c <= 57.

(** * Properties *)

(** ** The loop over the segments ends *)

Lemma captureResult_endpos_le data n : (captureResult_endpos data n <= n)%nat.
Proof.
  induction n as [|n IH]; simpl; [lia|].
  destruct (data !! n) as [b|]; [|lia].
  destruct (is_trailer b); lia.
Qed.

Lemma Buffer_indexOf_at_range v data i :
  Buffer.indexOf_at v data i = (-1)%Z
  \/ (Z.of_nat i <= Buffer.indexOf_at v data i)%Z.
Proof.
  revert i. induction data as [|x data IH]; intros i; simpl; [by left|].
  destruct (Byte.eqb x v); [right; lia|].
  destruct (IH (S i)) as [->|H]; [by left | right; lia].
Qed.

Lemma Buffer_indexOf_range data v off :
  Buffer.indexOf data v off = (-1)%Z
  \/ (Z.of_nat off <= Buffer.indexOf data v off)%Z.
Proof. apply Buffer_indexOf_at_range. Qed.

(** With more fuel than bytes left, the loop gives a result. *)
Lemma captureResult_loop_total fuel data endpos prevpos fields trace :
  (endpos - prevpos < fuel)%nat ->
  exists r, captureResult_loop fuel data endpos prevpos fields trace = Some r.
Proof.
  revert prevpos fields trace.
  induction fuel as [|fuel IH]; intros prevpos fields trace Hfuel; [lia|].
  simpl.
  destruct (captureResult_rule fields _) as [ws|]; [|by eexists].
  case_match; [|by eexists].
  apply IH.
  destruct (Buffer_indexOf_range data separator prevpos) as [Hi|Hi].
  - rewrite Hi in *. simpl in *.
    match goal with H : (_ <? _)%nat = true |- _ =>
      apply Nat.ltb_lt in H end. lia.
  - destruct (Z.ltb_spec (Buffer.indexOf data separator prevpos) 0); [lia|].
    match goal with H : (_ <? _)%nat = true |- _ =>
      apply Nat.ltb_lt in H end. lia.
Qed.

(** The decode of an answer always ends: with nothing to decode, with the
    fields or with a TypeError. *)
Lemma captureResult_decode_total data :
  exists r, captureResult_decode data = Some r.
Proof.
  unfold captureResult_decode.
  destruct (captureResult_noread data); [by eexists|].
  apply captureResult_loop_total.
  pose proof (captureResult_endpos_le data (length data)). lia.
Qed.

Lemma captureResult_loop_not_NoRead fuel data endpos prevpos fields trace :
  captureResult_loop fuel data endpos prevpos fields trace <> Some NoRead.
Proof.
  revert prevpos fields trace.
  induction fuel as [|fuel IH]; intros prevpos fields trace; simpl; [done|].
  destruct (captureResult_rule fields _) as [ws|]; [|done].
  case_match; [apply IH | done].
Qed.

(** ** Strings *)

Lemma starts_iff p s : starts p s = true <-> exists post, s = p ++ post.
Proof.
  revert s. induction p as [|a p IH]; intros s; simpl.
  - split; [by exists s | done].
  - destruct s as [|b s]; [split; [done | by intros [? ?]]|].
    rewrite andb_true_iff, N.eqb_eq, IH. split.
    + intros [-> [post ->]]. by exists post.
    + intros [post [= -> ->]]. eauto.
Qed.

Lemma starts_take p s : starts p s = true <-> take (length p) s = p.
Proof.
  rewrite starts_iff. split.
  - intros [post ->]. by rewrite take_app_length.
  - intros H. exists (drop (length p) s).
    by rewrite <- H at 1; rewrite take_drop.
Qed.

Lemma indexOf_at_iff p s i :
  (0 <= i)%Z ->
  (0 <= indexOf_at p s i)%Z <-> exists pre post, s = pre ++ p ++ post.
Proof.
  revert i. induction s as [|c s IH]; intros i Hi; simpl.
  - destruct (starts p []) eqn:Hs.
    + apply starts_iff in Hs as [post Hs]. split; [|done].
      intros _. by exists [], post.
    + split; [lia|]. intros (pre & post & H).
      destruct pre; [|done]. simpl in H.
      assert (starts p [] = true) by (apply starts_iff; eauto). congruence.
  - destruct (starts p (c :: s)) eqn:Hs.
    + apply starts_iff in Hs as [post Hs]. split; [|done].
      intros _. by exists [], post.
    + rewrite IH by lia. split.
      * intros (pre & post & ->). by exists (c :: pre), post.
      * intros (pre & post & H). destruct pre as [|c' pre].
        -- assert (starts p (c :: s) = true) by (apply starts_iff; eauto).
           congruence.
        -- injection H as -> ->. eauto.
Qed.

(** [indexOf] finds the text exactly when it occurs somewhere. *)
Lemma indexOf_nonneg_iff p s :
  (0 <=? indexOf p s)%Z = true <-> exists pre post, s = pre ++ p ++ post.
Proof. rewrite Z.leb_le. by apply indexOf_at_iff. Qed.

Lemma trimStart_app_keep l m c :
  is_space c = false -> exists l', trimStart (l ++ c :: m) = l' ++ c :: m.
Proof.
  intros Hc. induction l as [|x l IH]; simpl.
  - rewrite Hc. by exists [].
  - destruct (is_space x); [done|]. by exists (x :: l).
Qed.

Lemma trimEnd_app_keep l m c :
  is_space c = false -> exists m', trimEnd (l ++ c :: m) = l ++ c :: m'.
Proof.
  intros Hc. unfold trimEnd.
  rewrite rev_app_distr. simpl. rewrite <- app_assoc. simpl.
  destruct (trimStart_app_keep (rev m) (rev l) c Hc) as [l' ->].
  exists (rev l'). rewrite rev_app_distr. simpl.
  by rewrite rev_involutive, <- app_assoc.
Qed.

(** ** One segment *)

Lemma slice_0_starts n p field :
  length p = n -> slice 0 n field = p <-> starts p field = true.
Proof.
  intros <-. unfold slice. rewrite starts_take, Nat.sub_0_r. by rewrite drop_0.
Qed.

Lemma first_char_lookup a field :
  field !! 0%nat = Some (chr a) <-> first_char a field = true.
Proof.
  destruct field as [|c field]; simpl; [done|].
  rewrite N.eqb_eq. split; [by intros [= ->] | by intros ->].
Qed.

Lemma match_4to9_D_slice field :
  match_4to9_D (slice 0 2 field) = first_two_4to9_D field.
Proof.
  destruct field as [|c [|d field]]; simpl; try done.
  by rewrite !orb_false_r.
Qed.

Lemma match_1_0to6_D_slice field :
  match_1_0to6_D (slice 0 3 field) = first_three_10to16_D field.
Proof.
  destruct field as [|c [|d [|e field]]]; simpl; try done.
  by rewrite !orb_false_r.
Qed.

(** The test of line 197 compares three characters with a text of two:
    it holds for the segment [4K] alone. *)
Lemma line_197_only_4K field :
  slice 0 3 field = lit "4K" <-> field = lit "4K".
Proof.
  split; [|by intros ->].
  destruct field as [|c [|d [|e field]]]; simpl; done.
Qed.

(** A segment that starts with [GWCR] and has fewer than four parts ends
    the decode with a TypeError, at [parts[3].slice] of line 164. *)
Lemma captureResult_rule_GWCR_short fields field :
  slice 0 4 field = lit "GWCR" ->
  (length (split (chr "|") field) < 4)%nat ->
  captureResult_rule fields field = TypeError.
Proof.
  intros H Hlen. unfold captureResult_rule.
  rewrite decide_True by done.
  by rewrite lookup_ge_None_2 by lia.
Qed.

(** One step down the if/else chain of [captureResult_rule]. *)
Ltac rule_step :=
  match goal with
  | |- (if decide ?P then _ else _) = _ -> _ => destruct (decide P) as [_|_]
  | |- (if ?b then _ else _) = _ -> _ => destruct b
  | |- match ?x with _ => _ end = _ -> _ => destruct x
  | |- Return _ = Return _ -> _ => intros [= <-]
  | |- TypeError = Return _ -> _ => discriminate
  end.

Ltac rule_cases := unfold captureResult_rule; repeat rule_step.

(** Within one segment no key is assigned twice. *)
Lemma captureResult_rule_NoDup fields field ws :
  captureResult_rule fields field = Return ws -> NoDup ws.*1.
Proof.
  rule_cases; simpl; apply (bool_decide_unpack _); by vm_compute.
Qed.

(** A segment assigns nothing only in the Digi-Key context. *)
Lemma captureResult_rule_nil fields field :
  captureResult_rule fields field = Return [] -> is_DigiKey fields = true.
Proof.
  unfold captureResult_rule. destruct (is_DigiKey fields); [done|].
  repeat rule_step; discriminate.
Qed.

(** In the Digi-Key context no segment reaches the last [else]. *)
Lemma captureResult_rule_DigiKey_unknown fields field ws :
  is_DigiKey fields = true ->
  captureResult_rule fields field = Return ws -> "unknown" ∉ ws.*1.
Proof.
  intros HD. unfold captureResult_rule. rewrite HD.
  repeat rule_step; simpl; apply (bool_decide_unpack _); by vm_compute.
Qed.

(** ** The assignments of a decode *)

Lemma assign_all_snoc fields ws w :
  assign_all fields (ws ++ [w]) = <[w.1 := w.2]> (assign_all fields ws).
Proof. unfold assign_all. by rewrite foldl_app. Qed.

Lemma assign_all_app fields ws1 ws2 :
  assign_all fields (ws1 ++ ws2) = assign_all (assign_all fields ws1) ws2.
Proof. unfold assign_all. by rewrite foldl_app. Qed.

(** The value of a key is the last one assigned to it. *)
Lemma assign_all_lookup fields ws k :
  assign_all fields ws !! k
  = match last (omap (fun w : string * jsval =>
                        if decide (w.1 = k) then Some w.2 else None) ws) with
    | Some v => Some v
    | None => fields !! k
    end.
Proof.
  induction ws as [|w ws IH] using rev_ind; [done|].
  rewrite assign_all_snoc, omap_app. simpl.
  destruct (decide (w.1 = k)) as [->|Hne].
  - by rewrite lookup_insert_eq, last_snoc.
  - rewrite lookup_insert_ne by done. by rewrite app_nil_r.
Qed.

Lemma assign_all_not_written fields ws k :
  k ∉ ws.*1 -> assign_all fields ws !! k = fields !! k.
Proof.
  intros Hk. induction ws as [|w ws IH] using rev_ind; [done|].
  rewrite fmap_app, not_elem_of_app in Hk. destruct Hk as [Hk1 Hk2].
  rewrite assign_all_snoc, lookup_insert_ne; [by apply IH|].
  simpl in Hk2. set_solver.
Qed.

Lemma assign_all_nonempty fields ws :
  ws <> [] -> assign_all fields ws <> ∅.
Proof.
  destruct ws as [|w ws] using rev_ind; [done|]. intros _.
  rewrite assign_all_snoc. apply insert_non_empty.
Qed.

(** The loop keeps the object equal to its assignments replayed, adds one
    entry to the trace per segment visited, and ends on a non-empty
    object. *)
Lemma captureResult_loop_trace fuel data endpos prevpos fields trace f tr :
  captureResult_loop fuel data endpos prevpos fields trace
    = Some (Fields f tr) ->
  fields = assign_all ∅ (concat trace) ->
  Forall (fun ws => NoDup ws.*1) trace ->
  f = assign_all ∅ (concat tr)
  /\ Forall (fun ws => NoDup ws.*1) tr
  /\ length tr
     = (length trace
        + length (captureResult_segments fuel data endpos prevpos))%nat
  /\ f <> ∅.
Proof.
  revert prevpos fields trace.
  induction fuel as [|fuel IH]; intros prevpos fields trace; simpl; [done|].
  destruct (captureResult_rule fields _) as [ws|] eqn:Hrule; [|done].
  intros Hloop Hf Hnd.
  assert (assign_all fields ws = assign_all ∅ (concat (trace ++ [ws]))) as Hf'.
  { rewrite concat_app, assign_all_app, <- Hf. simpl. by rewrite app_nil_r. }
  assert (Forall (fun ws => NoDup ws.*1) (trace ++ [ws])) as Hnd'.
  { apply Forall_app. split; [done|].
    apply Forall_singleton. by eapply captureResult_rule_NoDup. }
  case_match.
  - destruct (IH _ _ _ Hloop Hf' Hnd') as (? & ? & Hlen & ?).
    repeat split; try done. rewrite Hlen, length_app. simpl. lia.
  - injection Hloop as <- <-. repeat split; try done.
    + rewrite length_app. simpl. lia.
    + destruct ws as [|w ws]; [|by apply assign_all_nonempty].
      apply captureResult_rule_nil in Hrule. simpl. unfold is_DigiKey in Hrule.
      intros ->. by rewrite lookup_empty in Hrule.
Qed.

Lemma toString_NOREAD_app trailer :
  Buffer.toString (Buffer.from "NOREAD" ++ trailer)
  = lit "NOREAD" ++ Buffer.toString trailer.
Proof. reflexivity. Qed.

Lemma captureResult_noread_NOREAD trailer :
  captureResult_noread (Buffer.from "NOREAD" ++ trailer) = true.
Proof.
  unfold captureResult_noread. apply orb_true_iff. right.
  apply indexOf_nonneg_iff.
  rewrite toString_NOREAD_app. unfold trim.
  change (trimStart (lit "NOREAD" ++ Buffer.toString trailer))
    with (lit "NOREA" ++ 68 :: Buffer.toString trailer).
  destruct (trimEnd_app_keep (lit "NOREA") (Buffer.toString trailer) 68 eq_refl)
    as [m' ->].
  by exists [], m'.
Qed.

Lemma captureResult_rule_TypeError fields field :
  captureResult_rule fields field = TypeError ->
  starts (lit "GWCR") field = true.
Proof.
  unfold captureResult_rule.
  destruct (decide (slice 0 4 field = lit "GWCR")) as [H|_].
  - intros _. by apply (slice_0_starts 4).
  - repeat match goal with
           | |- (if decide ?P then _ else _) = _ -> _ =>
               destruct (decide P) as [_|_]
           | |- (if ?b then _ else _) = _ -> _ => destruct b
           | |- Return _ = TypeError -> _ => discriminate
           end.
Qed.

(** Refuting the test at the head of the if/else chain from the rule
    table of the specification. *)
Ltac refute_test :=
  match goal with
  | |- (if decide (slice 0 ?n ?f = ?p) then _ else _) = _ =>
      rewrite (decide_False (P := slice 0 n f = p))
        by (let E := fresh in
            intros E; apply slice_0_starts in E; [congruence | reflexivity])
  | |- (if decide (?f !! 0%nat = Some (chr ?a)) then _ else _) = _ =>
      rewrite (decide_False (P := f !! 0%nat = Some (chr a)))
        by (let E := fresh in
            intros E; apply first_char_lookup in E; congruence)
  | |- (if ?b then _ else _) = _ =>
      replace b with false by (symmetry; assumption)
  end.

Lemma captureResult_rule_unmatched fields field :
  matches_rule_1_to_12 field = false ->
  matches_rule_14_15 field = false ->
  is_DigiKey fields = false ->
  captureResult_rule fields field = Return [("unknown", JStr field)].
Proof.
  unfold matches_rule_1_to_12, matches_rule_14_15.
  intros H12 H14 HD.
  repeat (apply orb_false_iff in H12 as [H12 ?]).
  apply orb_false_iff in H14 as [? ?].
  unfold captureResult_rule.
  rewrite match_4to9_D_slice, match_1_0to6_D_slice.
  repeat refute_test. reflexivity.
Qed.

(** ** The claims on the decoder *)

(** C3. The claim says that no answer makes the decoder raise, and names
    the segments that start with GWCR and have fewer than four parts.
    On the answer [GWCR|A|B] the decode ends with the TypeError of
    [parts[3].slice(5, 7)]; the handler stops there with the watchdog
    cleared and [_captureTimeout] still set, so that every later
    [triggerCapture()] returns at once. *)
Theorem GWCR_with_three_parts_raises :
  captureResult_decode answer_GWCR_short = Some Raised
  /\ (let w := captureResult answer_GWCR_short world_pending in
      _captureTimeout (camera w) = Some 1%nat
      /\ timers w = ∅ /\ downloads w = 0%nat /\ triggerCapture w = w).
Proof. by vm_compute. Qed.

(** C6, as stated, fails: in a decode of two segments [1PAAA] and
    [1PBBB] the key mfg_pn is assigned twice, and the second value
    stays. *)
Lemma mfg_pn_assigned_twice :
  captureResult_decode answer_twice_1P
  = Some (Fields {["mfg_pn" := JStr (lit "BBB")]}
            [[("mfg_pn", JStr (lit "AAA"))]; [("mfg_pn", JStr (lit "BBB"))]])
  /\ writes_to "mfg_pn"
       [[("mfg_pn", JStr (lit "AAA"))]; [("mfg_pn", JStr (lit "BBB"))]]
     = [JStr (lit "AAA"); JStr (lit "BBB")].
Proof. by vm_compute. Qed.

(** C7, as stated, fails: the answer [1PNOREADX] is a failure although
    its text is not empty and its only segment is not NOREAD. (And the
    answer of the single byte EOT has nothing left once the trailing
    control bytes are skipped, yet it is decoded, to an empty [unknown]:
    the test of line 137 trims white space, not control bytes.) *)
Lemma noread_inside_a_segment :
  captureResult_decode answer_noread_inside = Some NoRead
  /\ trim (Buffer.toString answer_noread_inside) <> []
  /\ segments answer_noread_inside = [lit "1PNOREADX"]
  /\ (lit "NOREAD" ∉ segments answer_noread_inside)
  /\ captureResult_endpos [x04] 1 = 0%nat
  /\ captureResult_decode [x04]
     = Some (Fields {["unknown" := JStr []]} [[("unknown", JStr [])]]).
Proof.
  split; [by vm_compute|]. split; [by vm_compute|].
  split; [by vm_compute|]. split; [|by vm_compute].
  change (segments answer_noread_inside) with [lit "1PNOREADX"].
  intros H%list_elem_of_singleton. by vm_compute in H.
Qed.

(** C7, amended. The decode is a failure, with no field and no rule
    evaluated, exactly when the text of the answer, trimmed of white
    space, is empty or contains NOREAD anywhere; every other decode that
    ends normally gives a non-empty field mapping; an answer that starts
    with NOREAD is a failure whatever bytes follow, trailing control
    bytes included. *)
Theorem noread_iff_text_contains_NOREAD data :
  (captureResult_decode data = Some NoRead <->
     trim (Buffer.toString data) = []
     \/ exists pre post,
          trim (Buffer.toString data) = pre ++ lit "NOREAD" ++ post)
  /\ (forall fields trace,
        captureResult_decode data = Some (Fields fields trace) ->
        fields <> ∅)
  /\ (forall trailer,
        captureResult_decode (Buffer.from "NOREAD" ++ trailer) = Some NoRead).
Proof.
  split; [|split].
  - unfold captureResult_decode.
    destruct (captureResult_noread data) eqn:Hn;
      unfold captureResult_noread in Hn.
    + apply orb_true_iff in Hn as [Hn|Hn].
      * apply bool_decide_eq_true in Hn. split; [by left | done].
      * apply indexOf_nonneg_iff in Hn. split; [by right | done].
    + apply orb_false_iff in Hn as [Hn1 Hn2].
      apply bool_decide_eq_false in Hn1. split.
      * intros H. by apply captureResult_loop_not_NoRead in H.
      * intros [H|H]; [done|]. apply indexOf_nonneg_iff in H. congruence.
  - unfold captureResult_decode. intros fields trace.
    destruct (captureResult_noread data); [done|]. intros H.
    by apply captureResult_loop_trace in H as (_ & _ & _ & ?);
      [|done|apply Forall_nil].
  - intros trailer. unfold captureResult_decode.
    by rewrite captureResult_noread_NOREAD.
Qed.

Lemma noread_iff_text_contains_NOREAD_witness :
  (trim (Buffer.toString answer_noread) = []
   \/ exists pre post,
        trim (Buffer.toString answer_noread) = pre ++ lit "NOREAD" ++ post)
  /\ ({["mfg_pn" := JStr (lit "1234")]} : gmap string jsval) <> ∅.
Proof.
  split.
  - apply (proj1 (proj1 (noread_iff_text_contains_NOREAD answer_noread))).
    vm_compute. reflexivity.
  - eapply (proj1 (proj2 (noread_iff_text_contains_NOREAD answer_1P))).
    vm_compute. reflexivity.
Defined.

(** C8. The claim says that in the Digi-Key context a segment [4K...]
    longer than two characters sets line_no to the rest. The test of
    line 197 compares [field.slice(0, 3)] with ['4K'], which no such
    segment passes: after the bare [K], the segment [4K123] assigns
    nothing. *)
Theorem digikey_4K123_sets_nothing :
  captureResult_decode answer_digikey_4K
  = Some (Fields {["distributor" := JStr (lit "Digi-Key")]}
            [[("distributor", JStr (lit "Digi-Key"))]; []])
  /\ ({["distributor" := JStr (lit "Digi-Key")]} : gmap string jsval)
       !! "line_no" = None.
Proof. by vm_compute. Qed.

(** C9, as stated, fails: after the bare [K], the segment [XYZ] matches
    no rule and no prefix of the Digi-Key context, and it is dropped:
    nothing is stored under [unknown]. *)
Lemma digikey_context_drops_unmatched :
  matches_rule_1_to_12 (lit "XYZ") = false
  /\ matches_rule_13 (lit "XYZ") = false
  /\ matches_rule_14_15 (lit "XYZ") = false
  /\ segments answer_digikey_other = [lit "K"; lit "XYZ"]
  /\ captureResult_decode answer_digikey_other
     = Some (Fields {["distributor" := JStr (lit "Digi-Key")]}
               [[("distributor", JStr (lit "Digi-Key"))]; []])
  /\ ({["distributor" := JStr (lit "Digi-Key")]} : gmap string jsval)
       !! "unknown" = None.
Proof. by vm_compute. Qed.

(** C9, amended. A segment that matches none of the rules 1 to 12 is
    stored verbatim under [unknown], over any earlier value, when the
    Digi-Key sentinel is not set and the segment matches neither rule 14
    nor rule 15; when the sentinel is set the segment is taken by the
    Digi-Key branch, which never stores under [unknown]: the key keeps
    the value it had. *)
Theorem unmatched_segment_and_unknown fields field :
  matches_rule_1_to_12 field = false ->
  (is_DigiKey fields = false ->
   matches_rule_14_15 field = false ->
   captureResult_rule fields field = Return [("unknown", JStr field)]
   /\ assign_all fields [("unknown", JStr field)] !! "unknown"
      = Some (JStr field))
  /\ (is_DigiKey fields = true ->
      exists ws,
        captureResult_rule fields field = Return ws
        /\ assign_all fields ws !! "unknown" = fields !! "unknown").
Proof.
  intros H12. split.
  - intros HD H14. split; [by apply captureResult_rule_unmatched|].
    simpl. apply lookup_insert_eq.
  - intros HD. destruct (captureResult_rule fields field) as [ws|] eqn:Hr.
    + exists ws. split; [done|].
      by eapply assign_all_not_written, captureResult_rule_DigiKey_unknown.
    + apply captureResult_rule_TypeError in Hr.
      unfold matches_rule_1_to_12 in H12.
      repeat (apply orb_false_iff in H12 as [H12 ?]). congruence.
Qed.

Lemma unmatched_segment_and_unknown_witness :
  (captureResult_rule {["unknown" := JStr (lit "old")]} (lit "XYZ")
   = Return [("unknown", JStr (lit "XYZ"))]
   /\ assign_all {["unknown" := JStr (lit "old")]}
        [("unknown", JStr (lit "XYZ"))] !! "unknown"
      = Some (JStr (lit "XYZ")))
  /\ (exists ws,
        captureResult_rule
          (<["distributor" := JStr (lit "Digi-Key")]>
             {["unknown" := JStr (lit "old")]}) (lit "XYZ")
        = Return ws
        /\ assign_all
             (<["distributor" := JStr (lit "Digi-Key")]>
                {["unknown" := JStr (lit "old")]}) ws !! "unknown"
           = (<["distributor" := JStr (lit "Digi-Key")]>
                ({["unknown" := JStr (lit "old")]} : gmap string jsval))
               !! "unknown").
Proof.
  split.
  - apply (proj1 (unmatched_segment_and_unknown
                    {["unknown" := JStr (lit "old")]} (lit "XYZ") eq_refl));
      vm_compute; reflexivity.
  - apply (proj2 (unmatched_segment_and_unknown
                    (<["distributor" := JStr (lit "Digi-Key")]>
                       {["unknown" := JStr (lit "old")]})
                    (lit "XYZ") eq_refl)).
    vm_compute. reflexivity.
Defined.

(** ** The driver *)

Lemma wire_emit_other o w :
  (forall s t, o <> SockWrite s t) -> wire (emit o w) = wire w.
Proof.
  intros Ho. unfold wire, emit. simpl. rewrite omap_app. simpl.
  destruct o; try by rewrite app_nil_r. by destruct (Ho sock text).
Qed.

Lemma wire_emit_write s t w :
  wire (emit (SockWrite s t) w) = wire w ++ [(s, t)].
Proof. unfold wire, emit. simpl. by rewrite omap_app. Qed.

(** A call of [triggerCapture()] while a capture is pending does
    nothing. *)
Lemma triggerCapture_pending w t :
  _captureTimeout (camera w) = Some t -> triggerCapture w = w.
Proof. unfold triggerCapture. by intros ->. Qed.

(** A call of [setTargetPattern()] while a capture is pending does
    nothing. *)
Lemma setTargetPattern_pending enabled w t :
  _captureTimeout (camera w) = Some t -> setTargetPattern enabled w = w.
Proof. unfold setTargetPattern. intros ->. by case_decide. Qed.

(** On a connected session with nothing pending, [triggerCapture()]
    writes the command and arms the watchdog before it returns. *)
Lemma triggerCapture_idle w s :
  _sock (camera w) = Some s ->
  _captureTimeout (camera w) = None ->
  triggerCapture w = setTimeout (emit (SockWrite s capture_command) w).
Proof. unfold triggerCapture, triggerCapture_rest. by intros -> ->. Qed.

Lemma captures_sent_app w w' l :
  wire w' = wire w ++ l ->
  captures_sent w'
  = (captures_sent w
     + length (filter (fun c : nat * string => c.2 = capture_command) l))%nat.
Proof.
  unfold captures_sent. intros ->. by rewrite filter_app, length_app.
Qed.

Lemma one_request_pending_size w :
  one_request_pending w -> (size (timers w) <= 1)%nat.
Proof.
  unfold one_request_pending. intros H.
  destruct (_captureTimeout (camera w)) as [t|] eqn:Ht.
  - rewrite <- (size_singleton (C := gset nat) t). apply subseteq_size.
    intros t' Ht'. apply H in Ht'. assert (t' = t) as -> by congruence. set_solver.
  - replace (timers w) with (∅ : gset nat); [rewrite size_empty; lia|].
    symmetry. apply leibniz_equiv. apply elem_of_equiv_empty. intros t' Ht'.
    by apply H in Ht'.
Qed.

Lemma lastMeasures_triggerCapture w :
  lastMeasures (triggerCapture w) = lastMeasures w.
Proof.
  unfold triggerCapture, triggerCapture_rest.
  by repeat case_match.
Qed.

Lemma lastMeasures_setTargetPattern enabled w :
  lastMeasures (setTargetPattern enabled w) = lastMeasures w.
Proof.
  unfold setTargetPattern, setTargetPattern_rest.
  by repeat (case_decide || case_match).
Qed.

Lemma lastMeasures_timedReportCallback value w :
  lastMeasures (timedReportCallback value w)
  = (measure value (lastMeasures w)).1.
Proof.
  unfold timedReportCallback.
  destruct (measure value (lastMeasures w)).2 as [[avg stddev]|]; [|done].
  repeat case_match;
    by rewrite ?lastMeasures_triggerCapture, ?lastMeasures_setTargetPattern.
Qed.

(** ** The measurement window *)

Lemma window_after_snoc xs x :
  window_after (xs ++ [x]) = (measure x (window_after xs)).1.
Proof. unfold window_after. by rewrite foldl_app. Qed.

(** The window holds the last four samples between two reports. *)
Lemma window_after_drop xs : window_after xs = drop (length xs - 4) xs.
Proof.
  induction xs as [|x xs IH] using rev_ind; [done|].
  rewrite window_after_snoc, IH. unfold measure.
  rewrite !length_app, length_drop. simpl.
  destruct (Nat.ltb_spec (length xs - (length xs - 4) + 1) 5) as [Hlt|Hge];
    simpl.
  - replace (length xs - 4)%nat with 0%nat by lia.
    replace (length xs + 1 - 4)%nat with 0%nat by lia. by rewrite !drop_0.
  - rewrite drop_app_le by (rewrite length_drop; lia).
    rewrite drop_drop.
    rewrite drop_app_le by lia. f_equal. f_equal. lia.
Qed.

(** ** The claims on the driver *)

(** C1, as stated, fails in two states. With a capture pending, two
    calls send nothing. From the start, with no socket yet, each of the
    two calls passes the test of line 116 and awaits its own
    [connect()]; once both sockets are connected the command has been
    written twice and two watchdogs are armed. *)
Lemma two_triggerCapture_not_once :
  captures_sent (triggerCapture (triggerCapture world_pending))
  = captures_sent world_pending
  /\ captures_sent world_start = 0%nat
  /\ (let w := socketConnected 1
                 (socketConnected 0
                    (triggerCapture (triggerCapture world_start))) in
      wire w = [(0%nat, capture_command); (1%nat, capture_command)]
      /\ captures_sent w = 2%nat
      /\ size (timers w) = 2%nat).
Proof. by vm_compute. Qed.

(** C1, amended. On a connected session, two calls of
    [triggerCapture()] in immediate succession send the capture command
    once when no capture is pending, on the first call, and not at all
    when one is pending; after them a capture is pending, and if every
    armed watchdog was the one of the pending request before, it is so
    after each call: at most one watchdog is armed. *)
Theorem two_triggerCapture_when_connected w s :
  _sock (camera w) = Some s ->
  one_request_pending w ->
  let w1 := triggerCapture w in
  let w2 := triggerCapture w1 in
  wire w2
  = wire w ++ (if capture_pending w then []
               else [(s, capture_command)])
  /\ captures_sent w2
     = (captures_sent w + if capture_pending w then 0 else 1)%nat
  /\ w2 = w1
  /\ is_Some (_captureTimeout (camera w2))
  /\ one_request_pending w1 /\ one_request_pending w2
  /\ (size (timers w1) <= 1)%nat /\ (size (timers w2) <= 1)%nat.
Proof.
  intros Hs Hone w1 w2.
  assert (is_Some (_captureTimeout (camera w1))
          /\ wire w1 = wire w ++ (if capture_pending w then []
                                  else [(s, capture_command)])
          /\ one_request_pending w1) as (Hp & Hw & Hone1).
  { subst w1. destruct (_captureTimeout (camera w)) as [t|] eqn:Ht.
    - rewrite (triggerCapture_pending w t Ht). unfold capture_pending.
      rewrite Ht, app_nil_r. eauto.
    - rewrite (triggerCapture_idle w s Hs Ht). unfold capture_pending.
      rewrite Ht. repeat split.
      + by eexists.
      + unfold wire. simpl. by rewrite omap_app.
      + intros t. simpl. intros [->%elem_of_singleton|Hin]%elem_of_union;
          [done|]. apply Hone in Hin. congruence. }
  assert (w2 = w1) as Hw2.
  { destruct Hp as [t Ht]. by apply (triggerCapture_pending w1 t). }
  rewrite Hw2. repeat split; try done.
  - rewrite (captures_sent_app w w1 _ Hw).
    destruct (capture_pending w); [done|].
    by rewrite filter_cons_True.
  - by apply one_request_pending_size.
  - by apply one_request_pending_size.
Qed.

Lemma two_triggerCapture_when_connected_witness :
  let w1 := triggerCapture world_idle in
  let w2 := triggerCapture w1 in
  wire w2
  = wire world_idle ++ (if capture_pending world_idle then []
                        else [(0%nat, capture_command)])
  /\ captures_sent w2
     = (captures_sent world_idle
        + if capture_pending world_idle then 0 else 1)%nat
  /\ w2 = w1
  /\ is_Some (_captureTimeout (camera w2))
  /\ one_request_pending w1 /\ one_request_pending w2
  /\ (size (timers w1) <= 1)%nat /\ (size (timers w2) <= 1)%nat.
Proof.
  apply (two_triggerCapture_when_connected world_idle 0).
  - reflexivity.
  - intros t Ht. simpl in Ht. by apply not_elem_of_empty in Ht.
Defined.




(** C10. When the answer to a pending capture is decoded to fields,
    [_captureTimeout] stays set from the arrival of the answer until
    the image has been downloaded: the handler's own
    [setTargetPattern(false)] changes nothing in the driver and writes
    nothing, every call of [triggerCapture()] or [setTargetPattern()]
    made meanwhile leaves the program as it was, and the end of the
    download clears the flag. On a failed decode (empty or NOREAD
    answer) the flag is cleared before the handler returns. *)
Theorem capture_flag_held_while_processing data w t :
  _captureTimeout (camera w) = Some t ->
  (forall fields trace,
     captureResult_decode data = Some (Fields fields trace) ->
     let w1 := captureResult data w in
     camera w1 = camera w
     /\ wire w1 = wire w
     /\ (forall calls, foldl do_call w1 calls = w1)
     /\ (forall calls,
           _captureTimeout (camera (imageDownloaded (foldl do_call w1 calls)))
           = None))
  /\ (captureResult_decode data = Some NoRead ->
      _captureTimeout (camera (captureResult data w)) = None).
Proof.
  intros Ht. split.
  - intros fields trace Hd w1.
    assert (camera w1 = camera w /\ wire w1 = wire w
            /\ downloads w1 = S (downloads w)) as (Hc & Hw & Hdl).
    { subst w1. unfold captureResult. rewrite Hd. cbv zeta.
      unfold captureResult_clearTimeout. rewrite Ht.
      match goal with |- context [setTargetPattern false ?x] =>
        set (w2 := x) end.
      assert (camera w2 = camera w /\ wire w2 = wire w
              /\ downloads w2 = downloads w) as (Hc2 & Hw2 & Hd2).
      { subst w2. destruct (truthy (fields !! "mfg_pn")); [|destruct (buzzer _)];
          rewrite ?wire_emit_other by done; done. }
      rewrite (setTargetPattern_pending false w2 t) by (by rewrite Hc2).
      change (camera w2 = camera w
              /\ wire (emit (WriteData data fields) w2) = wire w
              /\ S (downloads w2) = S (downloads w)).
      rewrite wire_emit_other by done. by rewrite Hd2. }
    assert (forall calls, foldl do_call w1 calls = w1) as Hcalls.
    { induction calls as [|c calls IH]; [done|]. simpl.
      replace (do_call w1 c) with w1; [done|].
      destruct c; simpl; symmetry.
      - apply (triggerCapture_pending w1 t). by rewrite Hc.
      - apply (setTargetPattern_pending enabled w1 t). by rewrite Hc. }
    repeat split; try done.
    intros calls. rewrite Hcalls. unfold imageDownloaded. by rewrite Hdl.
  - intros Hd. unfold captureResult. rewrite Hd. cbv zeta.
    by destruct (buzzer _).
Qed.

Lemma capture_flag_held_while_processing_witness :
  (let w1 := captureResult answer_1P world_pending in
   camera w1 = camera world_pending
   /\ wire w1 = wire world_pending
   /\ (forall calls, foldl do_call w1 calls = w1)
   /\ (forall calls,
         _captureTimeout (camera (imageDownloaded (foldl do_call w1 calls)))
         = None))
  /\ _captureTimeout (camera (captureResult answer_noread world_pending))
     = None.
Proof.
  split.
  - eapply (proj1 (capture_flag_held_while_processing
                     answer_1P world_pending 1 eq_refl)).
    vm_compute. reflexivity.
  - apply (proj2 (capture_flag_held_while_processing
                    answer_noread world_pending 1 eq_refl)).
    vm_compute. reflexivity.
Defined.

(** ** The claims on the range-finder callback *)

(** C4. Once the statistics are available, the callback does what the
    rule table of the TriggerController decides, the rules being tried
    in order: Fire exactly when mean < 50 and stddev < 1; else Arm when
    mean < 50 or stddev > 1; else Disarm when mean > 50 and
    stddev < 1; else no action, the camera being left as it was. *)
Theorem timedReportCallback_decision value w avg stddev :
  (measure value (lastMeasures w)).2 = Some (avg, stddev) ->
  let fire := (avg <? 50)%float = true /\ (stddev <? 1)%float = true in
  let arm := (avg <? 50)%float = true \/ (1 <? stddev)%float = true in
  let disarm := (50 <? avg)%float = true /\ (stddev <? 1)%float = true in
  timedReportCallback value w
  = perform (TriggerController avg stddev)
      (set_lastMeasures (measure value (lastMeasures w)).1 w)
  /\ (TriggerController avg stddev = Fire <-> fire)
  /\ (TriggerController avg stddev = Arm <-> ~ fire /\ arm)
  /\ (TriggerController avg stddev = Disarm <-> ~ fire /\ ~ arm /\ disarm)
  /\ (TriggerController avg stddev = NoAction <->
        ~ fire /\ ~ arm /\ ~ disarm)
  /\ (TriggerController avg stddev = NoAction ->
      camera (timedReportCallback value w) = camera w
      /\ sent (timedReportCallback value w) = sent w).
Proof.
  intros Hm fire arm disarm. subst fire arm disarm.
  unfold timedReportCallback, TriggerController. rewrite Hm.
  unfold THRESHOLD_DISTANCE_MM, THRESHOLD_MAX_DEVIATION.
  destruct (avg <? 50)%float, (stddev <? 1)%float,
           (1 <? stddev)%float, (50 <? avg)%float; simpl;
    repeat split; try done; try tauto; try (by intuition discriminate).
Qed.

Lemma timedReportCallback_decision_witness :
  timedReportCallback 48 world_close
  = perform (TriggerController 48 0)
      (set_lastMeasures (measure 48 (lastMeasures world_close)).1 world_close)
  /\ TriggerController 48 0 = Fire
  /\ wire (timedReportCallback 48 world_close)
     = wire world_close ++ [(0%nat, capture_command)].
Proof.
  pose proof (timedReportCallback_decision 48 world_close 48 0 eq_refl)
    as (H1 & H2 & _).
  split; [exact H1|]. split; [|reflexivity].
  apply H2. split; reflexivity.
Defined.

(** From the empty array the program starts with, the window holds the
    last four samples between two reports and so never more than five
    once the new sample is pushed; from the fifth sample on, each report
    takes its statistics on the five most recent samples, the new one
    included; at the sixth sample the first one is no longer among
    them. *)
Theorem window_is_five_most_recent xs x :
  window_after xs = drop (length xs - 4) xs
  /\ (length (window_after xs ++ [x]) <= 5)%nat
  /\ (measure x (window_after xs)).2
     = (if (4 <=? length xs)%nat
        then Some (statistics (drop (length (xs ++ [x]) - 5) (xs ++ [x])))
        else None)
  /\ length (drop (length (xs ++ [x]) - 5) (xs ++ [x]))
     = Nat.min 5 (length (xs ++ [x]))
  /\ (forall w,
        lastMeasures
          (foldl (fun w v => timedReportCallback v w)
                 (set_lastMeasures [] w) xs)
        = window_after xs)
  /\ (forall a b c d e f,
        (measure f (window_after [a; b; c; d; e])).2
        = Some (statistics [b; c; d; e; f])).
Proof.
  assert (drop (length xs - 4) xs ++ [x]
          = drop (length (xs ++ [x]) - 5) (xs ++ [x])) as Hlast.
  { rewrite length_app. simpl.
    rewrite drop_app_le by lia. f_equal. f_equal. lia. }
  split; [apply window_after_drop|]. split; [|split; [|split; [|split]]].
  - rewrite window_after_drop, length_app, length_drop. simpl. lia.
  - unfold measure. rewrite window_after_drop, Hlast.
    rewrite length_drop, !length_app. cbn [length].
    destruct (Nat.leb_spec 4 (length xs)), (Nat.ltb_spec
      (length xs + 1 - (length xs + 1 - 5)) 5); try lia; done.
  - rewrite length_drop. lia.
  - intros w. induction xs as [|y xs IH] using rev_ind; [done|].
    rewrite foldl_app. simpl.
    rewrite lastMeasures_timedReportCallback, IH.
    + by rewrite window_after_snoc.
    + rewrite length_app. simpl.
      rewrite drop_app_le by lia. f_equal. f_equal. lia.
  - reflexivity.
Qed.

(** Five equal samples have the variance 0, and 0 is their only
    population standard deviation. *)
Lemma population_variance_equal q :
  (population_variance (replicate 5 q) == 0)%Q.
Proof. unfold population_variance, population_mean. simpl. field. Qed.

Lemma is_population_stddev_equal q s :
  is_population_stddev (replicate 5 q) s <-> (s == 0)%Q.
Proof.
  unfold is_population_stddev. rewrite population_variance_equal. split.
  - intros [_ H]. by apply Qmult_integral in H as [H|H].
  - intros ->. split; [apply Qle_refl | reflexivity].
Qed.

(** C5. The claim says that each pair emitted is the mean and the
    population standard deviation of the five most recent samples. For
    five equal samples of 41.1 mm the code does not emit it: their
    population standard deviation is 0, as for any five equal samples,
    but the difference [sumsq / n - avg * avg] of line 255 is rounded
    below zero and its square root is not a number. The deviation
    reported is then not below the threshold, so that the steady object
    at 41.1 mm does not fire the capture: the five reports leave the
    camera as it was. Five equal samples of 41 mm, whose sums are exact,
    give the deviation 0 and fire it. *)
Theorem equal_samples_deviation_nan :
  let x := 0x1.48ccccccccccdp+5%float in
  (forall q s, is_population_stddev (replicate 5 q) s <-> (s == 0)%Q)
  /\ (measure x (window_after (replicate 4 x))).2 = Some (x, nan)
  /\ reports (replicate 5 x) world_idle
     = set_lastMeasures (replicate 4 x) world_idle
  /\ captures_sent (reports (replicate 5 x) world_idle) = 0%nat
  /\ (measure 41 (window_after (replicate 4 41%float))).2
     = Some (41, 0)%float
  /\ reports (replicate 5 41%float) world_idle
     = triggerCapture (set_lastMeasures (replicate 4 41%float) world_idle)
  /\ captures_sent (reports (replicate 5 41%float) world_idle) = 1%nat.
Proof.
  split; [apply is_population_stddev_equal|]. by vm_compute.
Qed.

(** * Further properties of the decoder *)

Lemma captureResult_loop_more_fuel fuel k data endpos prevpos fields trace r :
  captureResult_loop fuel data endpos prevpos fields trace = Some r ->
  captureResult_loop (fuel + k) data endpos prevpos fields trace = Some r.
Proof.
  revert prevpos fields trace.
  induction fuel as [|fuel IH]; intros prevpos fields trace; simpl; [done|].
  destruct (captureResult_rule fields _) as [ws|]; [|done].
  case_match; [apply IH | done].
Qed.

(** The do-while loop of lines 154-222 ends on every buffer: one more
    iteration than the buffer has bytes is enough for a result, and
    allowing more iterations gives the same result. *)
Theorem captureResult_loop_ends data fuel :
  (S (length data) <= fuel)%nat ->
  is_Some (captureResult_loop fuel data
             (captureResult_endpos data (length data)) 0 ∅ [])
  /\ captureResult_loop fuel data
       (captureResult_endpos data (length data)) 0 ∅ []
     = captureResult_loop (S (length data)) data
         (captureResult_endpos data (length data)) 0 ∅ [].
Proof.
  intros Hfuel.
  destruct (captureResult_loop_total (S (length data)) data
              (captureResult_endpos data (length data)) 0 ∅ []) as [r Hr].
  { pose proof (captureResult_endpos_le data (length data)). lia. }
  apply (captureResult_loop_more_fuel _ (fuel - S (length data))) in Hr as Hr'.
  replace (S (length data) + (fuel - S (length data)))%nat with fuel in Hr'
    by lia.
  rewrite Hr, Hr'. eauto.
Qed.

Lemma captureResult_loop_ends_witness :
  is_Some (captureResult_loop 100 answer_three
             (captureResult_endpos answer_three (length answer_three)) 0 ∅ [])
  /\ captureResult_loop 100 answer_three
       (captureResult_endpos answer_three (length answer_three)) 0 ∅ []
     = captureResult_loop (S (length answer_three)) answer_three
         (captureResult_endpos answer_three (length answer_three)) 0 ∅ [].
Proof.
  apply (captureResult_loop_ends answer_three 100). vm_compute. lia.
Defined.

(** [split] cuts at every separator: one part more than separators. *)
Lemma split_length sep s :
  length (split sep s) = S (length (filter (fun c => c = sep) s)).
Proof.
  induction s as [|c s IH]; [done|]. simpl.
  destruct (N.eqb_spec c sep) as [->|Hne].
  - rewrite filter_cons_True by done. simpl. by rewrite IH.
  - rewrite filter_cons_False by done.
    destruct (split sep s) as [|p ps] eqn:Hs; simpl in *; [done|]. done.
Qed.

(** The rule chain raises on the segments that start with GWCR and have
    fewer than three [|], and on no other. *)
Lemma captureResult_rule_TypeError_iff fields field :
  captureResult_rule fields field = TypeError <-> GWCR_short field.
Proof.
  unfold GWCR_short. split.
  - intros H. pose proof (captureResult_rule_TypeError _ _ H) as Hs.
    apply (slice_0_starts 4) in Hs; [|done]. split; [done|].
    unfold captureResult_rule in H. rewrite decide_True in H by done.
    destruct (split (chr "|") field !! 3%nat) eqn:Hl; [done|].
    apply lookup_ge_None in Hl. rewrite split_length in Hl. lia.
  - intros [Hs Hn]. apply captureResult_rule_GWCR_short; [done|].
    rewrite split_length. lia.
Qed.

Lemma captureResult_loop_Raised fuel data endpos prevpos fields trace :
  captureResult_loop fuel data endpos prevpos fields trace = Some Raised
  <-> Exists GWCR_short (captureResult_segments fuel data endpos prevpos).
Proof.
  revert prevpos fields trace.
  induction fuel as [|fuel IH]; intros prevpos fields trace; simpl.
  - split; [done|]. by intros ?%Exists_nil.
  - rewrite Exists_cons.
    destruct (captureResult_rule fields _) as [ws|] eqn:Hr.
    + assert (~ GWCR_short (replace_RS (trim (Buffer.toString_range data
                prevpos (if (Buffer.indexOf data separator prevpos <? 0)%Z
                         then endpos
                         else Z.to_nat (Buffer.indexOf data separator
                                          prevpos)))))) as Hn.
      { intros Hg%(captureResult_rule_TypeError_iff fields). congruence. }
      match goal with |- context [(?a <? endpos)%nat] =>
        destruct (a <? endpos)%nat end.
      * rewrite IH. tauto.
      * split; [done|]. intros [?|?%Exists_nil]; done.
    + apply captureResult_rule_TypeError_iff in Hr. tauto.
Qed.

(** The decode of an answer ends with a TypeError exactly when the
    answer is not an empty or NOREAD one and one of its segments starts
    with GWCR and has fewer than three [|]. *)
Theorem captureResult_decode_Raised_iff data :
  captureResult_decode data = Some Raised
  <-> captureResult_noread data = false /\ Exists GWCR_short (segments data).
Proof.
  unfold captureResult_decode, segments.
  destruct (captureResult_noread data).
  - split; [done | by intros [? _]].
  - rewrite captureResult_loop_Raised. tauto.
Qed.

(** ** The trailing control bytes *)

Lemma captureResult_endpos_spec data m :
  (m <= length data)%nat ->
  let n := captureResult_endpos data m in
  (n <= m)%nat
  /\ (forall i, (n <= i < m)%nat ->
        exists b, data !! i = Some b /\ is_trailer b = true)
  /\ ((0 < n)%nat ->
      exists b, data !! (n - 1)%nat = Some b /\ is_trailer b = false).
Proof.
  induction m as [|m IH]; intros Hm; simpl.
  - repeat split; [lia..|]. lia.
  - destruct (data !! m) as [b|] eqn:Hb.
    2:{ apply lookup_ge_None in Hb. lia. }
    destruct (is_trailer b) eqn:Ht.
    + destruct IH as (H1 & H2 & H3); [lia|]. repeat split; [lia| |done].
      intros i Hi. destruct (decide (i = m)) as [->|]; [eauto|].
      apply H2. lia.
    + repeat split; [lia| |].
      * intros i Hi. lia.
      * intros _. exists b. by replace (S m - 1)%nat with m by lia.
Qed.

(** [endpos] is where the longest run of trailing control bytes (EOT,
    CR, LF, RS) starts: every byte from there on is one of them and the
    byte before, if any, is not. *)
Theorem captureResult_endpos_trailer data :
  let n := captureResult_endpos data (length data) in
  (n <= length data)%nat
  /\ Forall (fun b => is_trailer b = true) (drop n data)
  /\ (forall b, last (take n data) = Some b -> is_trailer b = false).
Proof.
  destruct (captureResult_endpos_spec data (length data)) as (H1 & H2 & H3);
    [done|].
  split; [done|]. split.
  - apply Forall_lookup. intros i b Hi. rewrite lookup_drop in Hi.
    destruct (H2 (captureResult_endpos data (length data) + i)%nat)
      as (b' & Hb' & Ht).
    + apply lookup_lt_Some in Hi. lia.
    + congruence.
  - intros b Hb. rewrite last_lookup in Hb.
    rewrite length_take, Nat.min_l in Hb by done.
    destruct (captureResult_endpos data (length data)) as [|n] eqn:Hn;
      [done|].
    simpl in Hb. rewrite lookup_take_lt in Hb by lia.
    destruct H3 as (b' & Hb' & Ht); [lia|].
    simpl in Hb'. rewrite Nat.sub_0_r in Hb'. congruence.
Qed.

Lemma captureResult_endpos_ext d1 d2 m :
  (forall i, (i < m)%nat -> d1 !! i = d2 !! i) ->
  captureResult_endpos d1 m = captureResult_endpos d2 m.
Proof.
  induction m as [|m IH]; intros H; simpl; [done|].
  rewrite (H m) by lia. destruct (d2 !! m) as [b|]; [|done].
  destruct (is_trailer b); [|done]. apply IH. intros i Hi. apply H. lia.
Qed.

Lemma captureResult_endpos_app data t :
  Forall (fun b => is_trailer b = true) t ->
  captureResult_endpos (data ++ t) (length (data ++ t))
  = captureResult_endpos data (length data).
Proof.
  induction t as [|b t IH] using rev_ind; intros Ht.
  - by rewrite app_nil_r.
  - apply Forall_app in Ht as [Ht Hb]. rewrite Forall_singleton in Hb.
    rewrite app_assoc, length_app. cbn [length]. rewrite Nat.add_1_r.
    cbn [captureResult_endpos].
    rewrite (list_lookup_middle (data ++ t) [] b) by done. rewrite Hb.
    rewrite <- (IH Ht). apply captureResult_endpos_ext.
    intros i Hi. by rewrite lookup_app_l.
Qed.

Lemma Buffer_indexOf_at_none v l i :
  Forall (fun b => Byte.eqb b v = false) l -> Buffer.indexOf_at v l i = (-1)%Z.
Proof.
  revert i. induction l as [|x l IH]; intros i Hl; simpl; [done|].
  apply Forall_cons in Hl as [-> Hl]. by apply IH.
Qed.

Lemma Buffer_indexOf_at_app v l t i :
  Forall (fun b => Byte.eqb b v = false) t ->
  Buffer.indexOf_at v (l ++ t) i = Buffer.indexOf_at v l i.
Proof.
  intros Ht. revert i. induction l as [|x l IH]; intros i; simpl.
  - by apply Buffer_indexOf_at_none.
  - destruct (Byte.eqb x v); [done|]. apply IH.
Qed.

Lemma Buffer_indexOf_at_lt v l i :
  (Buffer.indexOf_at v l i < Z.of_nat (i + length l))%Z.
Proof.
  revert i. induction l as [|x l IH]; intros i; simpl; [lia|].
  destruct (Byte.eqb x v); [lia|]. specialize (IH (S i)). lia.
Qed.

(** A separator found lies inside the buffer. *)
Lemma Buffer_indexOf_lt data v off :
  (Buffer.indexOf data v off < Z.of_nat (Nat.max off (length data)))%Z.
Proof.
  unfold Buffer.indexOf.
  pose proof (Buffer_indexOf_at_lt v (drop off data) off) as H.
  rewrite length_drop in H. lia.
Qed.

Lemma is_trailer_not_separator b :
  is_trailer b = true -> Byte.eqb b separator = false.
Proof. by destruct b. Qed.

Lemma Buffer_indexOf_app data t off :
  Forall (fun b => is_trailer b = true) t ->
  Buffer.indexOf (data ++ t) separator off = Buffer.indexOf data separator off.
Proof.
  intros Ht. unfold Buffer.indexOf. rewrite drop_app.
  apply Buffer_indexOf_at_app.
  apply Forall_drop. eapply Forall_impl; [done|].
  apply is_trailer_not_separator.
Qed.

Lemma Buffer_toString_range_app data t start stop :
  (stop <= length data)%nat ->
  Buffer.toString_range (data ++ t) start stop
  = Buffer.toString_range data start stop.
Proof.
  intros Hs. unfold Buffer.toString_range. f_equal.
  destruct (decide (start <= length data)%nat) as [Hle|Hgt].
  - rewrite drop_app, take_app_le; [done|]. rewrite length_drop. lia.
  - by replace (stop - start)%nat with 0%nat by lia.
Qed.

Lemma captureResult_loop_app fuel data t endpos prevpos fields trace :
  Forall (fun b => is_trailer b = true) t ->
  (endpos <= length data)%nat ->
  captureResult_loop fuel (data ++ t) endpos prevpos fields trace
  = captureResult_loop fuel data endpos prevpos fields trace.
Proof.
  intros Ht He. revert prevpos fields trace.
  induction fuel as [|fuel IH]; intros prevpos fields trace; simpl; [done|].
  rewrite (Buffer_indexOf_app data t prevpos Ht).
  rewrite Buffer_toString_range_app.
  - destruct (captureResult_rule fields _); [|done].
    case_match; [apply IH | done].
  - destruct (Z.ltb_spec (Buffer.indexOf data separator prevpos) 0); [done|].
    pose proof (Buffer_indexOf_lt data separator prevpos).
    destruct (Buffer_indexOf_range data separator prevpos); lia.
Qed.

(** Control bytes (EOT, CR, LF, RS) added at the end of an answer change
    nothing in its decode, as long as neither answer is an empty or
    NOREAD one. *)
Theorem trailing_control_bytes_ignored data t :
  Forall (fun b => is_trailer b = true) t ->
  captureResult_noread data = false ->
  captureResult_noread (data ++ t) = false ->
  captureResult_decode (data ++ t) = captureResult_decode data.
Proof.
  intros Ht Hn Hnt. unfold captureResult_decode. rewrite Hn, Hnt.
  rewrite (captureResult_endpos_app data t Ht).
  pose proof (captureResult_endpos_le data (length data)) as Hle.
  rewrite captureResult_loop_app by done.
  destruct (captureResult_loop_total (S (length data)) data
              (captureResult_endpos data (length data)) 0 ∅ []) as [r Hr];
    [lia|].
  rewrite Hr. rewrite length_app.
  replace (S (length data + length t)) with (S (length data) + length t)%nat
    by lia.
  by apply captureResult_loop_more_fuel.
Qed.

Lemma trailing_control_bytes_ignored_witness :
  captureResult_decode (answer_three ++ [x0d; x0a; x04])
  = captureResult_decode answer_three.
Proof.
  apply (trailing_control_bytes_ignored answer_three [x0d; x0a; x04]).
  - repeat constructor.
  - vm_compute. reflexivity.
  - vm_compute. reflexivity.
Defined.

(** ** The keys and the values of the result *)

Lemma captureResult_rule_keys fields field ws :
  captureResult_rule fields field = Return ws ->
  Forall (fun w : string * jsval =>
            w.1 ∈ known_keys /\ exists s, w.2 = JStr s) ws.
Proof.
  unfold captureResult_rule.
  destruct (decide (slice 0 4 field = lit "GWCR")) as [_|_].
  - unfold at_index.
    destruct (split (chr "|") field) as [|p0 [|p1 [|p2 [|p3 ps]]]];
      simpl; try done.
    intros [= <-]. repeat constructor; simpl; eauto;
      apply (bool_decide_unpack _); by vm_compute.
  - repeat rule_step;
      repeat constructor; simpl; eauto;
      apply (bool_decide_unpack _); by vm_compute.
Qed.

Lemma captureResult_loop_Forall (P : list (string * jsval) -> Prop)
  fuel data endpos prevpos fields trace f tr :
  (forall fields field ws, captureResult_rule fields field = Return ws -> P ws) ->
  captureResult_loop fuel data endpos prevpos fields trace
    = Some (Fields f tr) ->
  Forall P trace -> Forall P tr.
Proof.
  intros HP. revert prevpos fields trace.
  induction fuel as [|fuel IH]; intros prevpos fields trace; simpl; [done|].
  destruct (captureResult_rule fields _) as [ws|] eqn:Hrule; [|done].
  intros Hloop Htr.
  assert (Forall P (trace ++ [ws])) as Htr'.
  { apply Forall_app. split; [done|]. apply Forall_singleton. eauto. }
  case_match; [by eapply IH|]. by injection Hloop as <- <-.
Qed.

(** Every key of a decoded answer is one of the seventeen keys of the
    decoder, and every value is a string: no [undefined] is stored. *)
Theorem decoded_keys_and_values data fields trace :
  captureResult_decode data = Some (Fields fields trace) ->
  forall k v, fields !! k = Some v -> k ∈ known_keys /\ exists s, v = JStr s.
Proof.
  unfold captureResult_decode.
  destruct (captureResult_noread data); [done|]. intros H k v Hk.
  pose proof (captureResult_loop_Forall _ _ _ _ _ _ _ _ _
                captureResult_rule_keys H (Forall_nil_2 _)) as Hall.
  apply captureResult_loop_trace in H as (-> & _); [|done|by apply Forall_nil].
  rewrite assign_all_lookup, lookup_empty in Hk.
  destruct (last _) as [v'|] eqn:Hl; [|done]. injection Hk as ->.
  apply last_Some in Hl as [l' Hl].
  assert (v ∈ omap (fun w : string * jsval =>
                      if decide (w.1 = k) then Some w.2 else None)
            (concat trace)) as Hin.
  { rewrite Hl. apply elem_of_app. right. by apply list_elem_of_singleton. }
  apply list_elem_of_omap in Hin as (w & Hw & Hsel).
  case_decide; [|done]. injection Hsel as <-. subst k.
  apply list_elem_of_In, in_concat in Hw as (ws & Hws & Hw).
  apply list_elem_of_In in Hws, Hw.
  rewrite Forall_forall in Hall. apply Hall in Hws.
  rewrite Forall_forall in Hws. by apply Hws.
Qed.

Lemma decoded_keys_and_values_witness :
  "manufacturer" ∈ known_keys /\ exists s, JStr (lit "acme") = JStr s.
Proof.
  assert (captureResult_decode answer_three
          = Some (Fields
                    (<["mfg_pn" := JStr (lit "1234")]>
                       (<["manufacturer" := JStr (lit "acme")]>
                          {["traceability" := JStr (lit "9999")]}))
                    [[("mfg_pn", JStr (lit "1234"))];
                     [("manufacturer", JStr (lit "acme"))];
                     [("traceability", JStr (lit "9999"))]])) as H
    by (by vm_compute).
  apply (decoded_keys_and_values answer_three _ _ H "manufacturer").
  vm_compute. reflexivity.
Defined.

(** ** The rule table, prefix by prefix *)

(** Deciding the test at the head of the if/else chain on a segment
    whose first characters are known. *)
Ltac decide_test :=
  match goal with
  | |- (if decide ?P then _ else _) = _ =>
      first [ rewrite (decide_True (P := P)) by reflexivity
            | rewrite (decide_False (P := P))
                by (let E := fresh in intros E; vm_compute in E; congruence) ]
  | |- (if ?b then _ else _) = _ =>
      first [ replace b with false by (symmetry; assumption)
            | replace b with true by (symmetry; assumption)
            | replace b with false by reflexivity
            | replace b with true by reflexivity ]
  end.

Ltac prefix_cases H :=
  repeat (apply elem_of_cons in H as [H|H]; [injection H as -> ->|]);
  [..|by apply elem_of_nil in H].

(** A segment made of one of the prefixes 1P, 1V, 1T, 4L, P, Q, S and a
    rest, with no [[)>] in it, fills the key of the prefix with the
    rest, whatever the segments before. *)
Theorem plain_prefix_rule fields prefix key rest :
  (prefix, key) ∈ plain_prefixes ->
  (indexOf (lit "[)>") (lit prefix ++ rest) < 0)%Z ->
  captureResult_rule fields (lit prefix ++ rest) = Return [(key, JStr rest)].
Proof.
  intros Hp Hsig. apply Z.leb_gt in Hsig.
  unfold plain_prefixes in Hp. prefix_cases Hp;
    unfold captureResult_rule; repeat decide_test; reflexivity.
Qed.

Lemma plain_prefix_rule_witness :
  captureResult_rule ∅ (lit "1P" ++ lit "1234")
  = Return [("mfg_pn", JStr (lit "1234"))].
Proof.
  apply (plain_prefix_rule ∅ "1P" "mfg_pn" (lit "1234")).
  - apply (bool_decide_unpack _). by vm_compute.
  - reflexivity.
Defined.

(** Once the Digi-Key sentinel is set, a segment made of one of the
    prefixes 1K, 10K, 11K, 11Z, 12Z, 13Z and a rest, with no [[)>] in
    it, fills the key of the prefix with the rest, and a segment that
    starts with 20Z or 14K assigns nothing. *)
Theorem DigiKey_prefix_rule fields prefix key rest :
  is_DigiKey fields = true ->
  (indexOf (lit "[)>") (lit prefix ++ rest) < 0)%Z ->
  ((prefix, key) ∈ DigiKey_prefixes ->
   captureResult_rule fields (lit prefix ++ rest) = Return [(key, JStr rest)])
  /\ (prefix = "20Z" \/ prefix = "14K" ->
      captureResult_rule fields (lit prefix ++ rest) = Return []).
Proof.
  intros HD Hsig. apply Z.leb_gt in Hsig. split.
  - intros Hp. unfold DigiKey_prefixes in Hp. prefix_cases Hp;
      destruct rest as [|r rest];
      unfold captureResult_rule; repeat decide_test; reflexivity.
  - intros [->| ->]; unfold captureResult_rule; repeat decide_test;
      reflexivity.
Qed.

Lemma DigiKey_prefix_rule_witness :
  captureResult_rule {["distributor" := JStr (lit "Digi-Key")]}
    (lit "11K" ++ lit "77")
  = Return [("line_no", JStr (lit "77"))]
  /\ captureResult_rule {["distributor" := JStr (lit "Digi-Key")]}
       (lit "20Z" ++ lit "000")
     = Return [].
Proof.
  split.
  - apply (DigiKey_prefix_rule {["distributor" := JStr (lit "Digi-Key")]}
             "11K" "line_no" (lit "77")); try reflexivity.
    apply (bool_decide_unpack _). by vm_compute.
  - apply (DigiKey_prefix_rule {["distributor" := JStr (lit "Digi-Key")]}
             "20Z" "" (lit "000")); try reflexivity. by left.
Defined.

(** While the Digi-Key sentinel is not set, a segment made of the
    prefix 11K or 14K and a rest, with no [[)>] in it, fills invoice_no
    or line_no with the rest: 11K is read differently in the two
    contexts. *)
Theorem other_prefix_rule fields prefix key rest :
  is_DigiKey fields = false ->
  (indexOf (lit "[)>") (lit prefix ++ rest) < 0)%Z ->
  (prefix, key) ∈ other_prefixes ->
  captureResult_rule fields (lit prefix ++ rest) = Return [(key, JStr rest)].
Proof.
  intros HD Hsig Hp. apply Z.leb_gt in Hsig.
  unfold other_prefixes in Hp. prefix_cases Hp;
    unfold captureResult_rule; repeat decide_test; reflexivity.
Qed.

Lemma other_prefix_rule_witness :
  captureResult_rule ∅ (lit "11K" ++ lit "77")
  = Return [("invoice_no", JStr (lit "77"))].
Proof.
  apply (other_prefix_rule ∅ "11K" "invoice_no" (lit "77")); try reflexivity.
  apply (bool_decide_unpack _). by vm_compute.
Defined.

Ltac decide_test_range :=
  match goal with
  | |- (if decide ?P then _ else _) = _ =>
      first [ rewrite (decide_True (P := P)) by reflexivity
            | rewrite (decide_False (P := P))
                by (let E := fresh in
                    intros E; vm_compute in E;
                    first [congruence | injection E; intros; subst; lia]) ]
  | |- (if ?b then _ else _) = _ =>
      first [ replace b with false by (symmetry; assumption)
            | replace b with false by reflexivity ]
  end.

(** The two date-code rules: a digit 4 to 9 then D, or 1, a digit 0 to
    6, then D; the rest of the segment is the date code. No segment
    passes both tests, so their order is of no effect. *)
Theorem date_code_rules fields rest :
  (forall c,
     (52 <= c <= 57)%N ->
     (indexOf (lit "[)>") (c :: chr "D" :: rest) < 0)%Z ->
     captureResult_rule fields (c :: chr "D" :: rest)
     = Return [("date_code", JStr rest)])
  /\ (forall d,
        (48 <= d <= 54)%N ->
        (indexOf (lit "[)>") (chr "1" :: d :: chr "D" :: rest) < 0)%Z ->
        captureResult_rule fields (chr "1" :: d :: chr "D" :: rest)
        = Return [("date_code", JStr rest)])
  /\ (forall field,
        match_4to9_D (slice 0 2 field) = true ->
        match_1_0to6_D (slice 0 3 field) = false).
Proof.
  split; [|split].
  - intros c Hc Hsig. apply Z.leb_gt in Hsig.
    unfold captureResult_rule. repeat decide_test_range.
    replace (match_4to9_D (slice 0 2 (c :: chr "D" :: rest))) with true;
      [reflexivity|].
    simpl. rewrite (proj2 (N.leb_le 52 c)), (proj2 (N.leb_le c 57)) by lia.
    reflexivity.
  - intros d Hd Hsig. apply Z.leb_gt in Hsig.
    unfold captureResult_rule. repeat decide_test_range.
    replace (match_1_0to6_D (slice 0 3 (chr "1" :: d :: chr "D" :: rest)))
      with true; [reflexivity|].
    simpl. rewrite (proj2 (N.leb_le 48 d)), (proj2 (N.leb_le d 54)) by lia.
    reflexivity.
  - intros field. rewrite match_4to9_D_slice, match_1_0to6_D_slice.
    destruct field as [|c [|d [|e field]]]; simpl; try done.
    intros H. apply andb_true_iff in H as [H _].
    apply andb_true_iff in H as [H _]. apply N.leb_le in H.
    destruct (N.eqb_spec c 49); [lia | done].
Qed.

Lemma date_code_rules_witness :
  captureResult_rule ∅ (chr "9" :: chr "D" :: lit "2214")
  = Return [("date_code", JStr (lit "2214"))]
  /\ captureResult_rule ∅ (chr "1" :: chr "6" :: chr "D" :: lit "2214")
     = Return [("date_code", JStr (lit "2214"))]
  /\ match_1_0to6_D (slice 0 3 (lit "9D1")) = false.
Proof.
  split; [|split].
  - apply (proj1 (date_code_rules ∅ (lit "2214"))).
    + vm_compute. split; discriminate.
    + reflexivity.
  - apply (proj1 (proj2 (date_code_rules ∅ (lit "2214")))).
    + vm_compute. split; discriminate.
    + reflexivity.
  - apply (proj2 (proj2 (date_code_rules ∅ []))). reflexivity.
Defined.

(** ** The Digi-Key sentinel *)

Lemma is_DigiKey_assign_other fields ws :
  "distributor" ∉ ws.*1 ->
  is_DigiKey (assign_all fields ws) = is_DigiKey fields.
Proof.
  intros H. unfold is_DigiKey. by rewrite assign_all_not_written.
Qed.

Ltac rule_step_keep :=
  match goal with
  | |- (if decide ?P then _ else _) = _ -> _ => destruct (decide P)
  | |- (if ?b then _ else _) = _ -> _ => destruct b eqn:?
  | |- match ?x with _ => _ end = _ -> _ => destruct x eqn:?
  | |- Return _ = Return _ -> _ => intros [= <-]
  | |- TypeError = Return _ -> _ => discriminate
  end.

Ltac absurd_hyp :=
  match goal with
  | H : _ |- _ =>
      solve [ vm_compute in H;
              first [ discriminate H | congruence
                    | exfalso; apply H; reflexivity ] ]
  end.

(** One segment sets the sentinel exactly when it is the single letter
    K, and no segment unsets it. *)
Lemma captureResult_rule_sentinel fields field ws :
  captureResult_rule fields field = Return ws ->
  is_DigiKey (assign_all fields ws) = true
  <-> is_DigiKey fields = true \/ field = lit "K".
Proof.
  unfold captureResult_rule. repeat rule_step_keep.
  all: try (rewrite is_DigiKey_assign_other
              by (simpl; apply (bool_decide_unpack _); by vm_compute)).
  all: try (split; [tauto|]; intros [?| ->]; [done|]; absurd_hyp).
  1:{ split.
      - intros _. right.
        destruct field as [|c [|d field]]; try done.
        match goal with H : [c] !! 0%nat = Some _ |- _ =>
          simpl in H; injection H as -> end. reflexivity.
      - intros _. simpl. unfold is_DigiKey. by rewrite lookup_insert_eq. }
  all: split; [congruence|]; intros [?| ->]; [congruence|]; absurd_hyp.
Qed.

Lemma captureResult_rule_distributor fields field ws :
  captureResult_rule fields field = Return ws ->
  fields !! "distributor" = None \/ is_DigiKey fields = true ->
  assign_all fields ws !! "distributor" = None
  \/ is_DigiKey (assign_all fields ws) = true.
Proof.
  intros Hr Hf.
  destruct (decide (field = lit "K")) as [->|Hne].
  - right. by apply (captureResult_rule_sentinel fields (lit "K")); [|right].
  - destruct Hf as [Hf|Hf].
    + destruct (is_DigiKey (assign_all fields ws)) eqn:Hd; [by right|].
      left. revert Hr Hd. unfold captureResult_rule.
      repeat rule_step_keep.
      all: try (intros _; rewrite assign_all_not_written;
                [done | simpl; apply (bool_decide_unpack _); by vm_compute]).
      simpl. unfold is_DigiKey. rewrite lookup_insert_eq. done.
    + right. by apply (captureResult_rule_sentinel fields field); [|left].
Qed.

Lemma captureResult_loop_sentinel fuel data endpos prevpos fields trace f tr :
  captureResult_loop fuel data endpos prevpos fields trace
    = Some (Fields f tr) ->
  (is_DigiKey f = true <->
     is_DigiKey fields = true
     \/ lit "K" ∈ captureResult_segments fuel data endpos prevpos)
  /\ (fields !! "distributor" = None \/ is_DigiKey fields = true ->
      f !! "distributor" = None \/ is_DigiKey f = true).
Proof.
  revert prevpos fields trace.
  induction fuel as [|fuel IH]; intros prevpos fields trace; simpl; [done|].
  destruct (captureResult_rule fields _) as [ws|] eqn:Hrule; [|done].
  pose proof (captureResult_rule_sentinel _ _ _ Hrule) as Hs.
  pose proof (captureResult_rule_distributor _ _ _ Hrule) as Hd.
  match goal with |- context [(?a <? endpos)%nat] =>
    destruct (a <? endpos)%nat end.
  - intros Hloop. apply IH in Hloop as [H1 H2]. split.
    + rewrite H1, Hs, elem_of_cons. intuition congruence.
    + tauto.
  - intros [= <- <-]. split; [|done].
    rewrite Hs, elem_of_cons, elem_of_nil. intuition congruence.
Qed.

(** The decoded answer has the distributor Digi-Key exactly when one of
    its segments is the single letter K; otherwise it has no
    distributor at all. *)
Theorem distributor_iff_K_segment data fields trace :
  captureResult_decode data = Some (Fields fields trace) ->
  (fields !! "distributor" = Some (JStr (lit "Digi-Key"))
   <-> lit "K" ∈ segments data)
  /\ (fields !! "distributor" = None <-> lit "K" ∉ segments data).
Proof.
  unfold captureResult_decode, segments.
  destruct (captureResult_noread data); [done|]. intros H.
  apply captureResult_loop_sentinel in H as [H1 H2].
  assert (is_DigiKey (∅ : gmap string jsval) = false) as He by done.
  rewrite He in H1. specialize (H2 (or_introl (lookup_empty _))).
  assert (is_DigiKey fields = true
          <-> fields !! "distributor" = Some (JStr (lit "Digi-Key"))) as Hk.
  { unfold is_DigiKey. destruct (fields !! "distributor") as [[|s]|]; try done.
    rewrite bool_decide_eq_true. split; [by intros -> | by intros [= ->]]. }
  split.
  - rewrite <- Hk, H1. intuition congruence.
  - split.
    + intros Hn Hin. assert (is_DigiKey fields = true) as Hd
        by (apply H1; by right).
      apply Hk in Hd. congruence.
    + intros Hnin. destruct H2 as [?|Hd]; [done|].
      apply H1 in Hd as [?|?]; done.
Qed.

Lemma distributor_iff_K_segment_witness :
  (({["distributor" := JStr (lit "Digi-Key")]} : gmap string jsval)
     !! "distributor" = Some (JStr (lit "Digi-Key"))
   <-> lit "K" ∈ segments answer_digikey_other)
  /\ (({["distributor" := JStr (lit "Digi-Key")]} : gmap string jsval)
        !! "distributor" = None
      <-> lit "K" ∉ segments answer_digikey_other).
Proof.
  eapply (distributor_iff_K_segment answer_digikey_other).
  vm_compute. reflexivity.
Defined.

(** ** Every matching segment assigns again *)

Lemma is_DigiKey_context dk : is_DigiKey (DigiKey_context dk) = dk.
Proof. by destruct dk. Qed.

(** The rule chain reads [fields] through the Digi-Key test only: what a
    segment assigns does not depend on the keys already set. *)
Lemma captureResult_rule_context fields field :
  captureResult_rule fields field
  = captureResult_rule (DigiKey_context (is_DigiKey fields)) field.
Proof. unfold captureResult_rule. by rewrite is_DigiKey_context. Qed.

Lemma captureResult_rule_assignments fields field ws :
  captureResult_rule fields field = Return ws ->
  ws = rule_assignments (is_DigiKey fields) field
  /\ is_DigiKey (assign_all fields ws)
     = is_DigiKey fields || bool_decide (field = lit "K").
Proof.
  intros H. split.
  - unfold rule_assignments. by rewrite <- captureResult_rule_context, H.
  - apply captureResult_rule_sentinel in H.
    destruct (is_DigiKey (assign_all fields ws)), (is_DigiKey fields);
      simpl; try done.
    + symmetry. apply bool_decide_eq_true. destruct H as [H _].
      by destruct H.
    + destruct H as [_ H]. discriminate H. by left.
    + symmetry. apply bool_decide_eq_false. intros E.
      destruct H as [_ H]. discriminate H. by right.
Qed.

Lemma captureResult_loop_assignments
  fuel data endpos prevpos fields trace f tr :
  captureResult_loop fuel data endpos prevpos fields trace
    = Some (Fields f tr) ->
  tr = trace ++ assignments (is_DigiKey fields)
                  (captureResult_segments fuel data endpos prevpos).
Proof.
  revert prevpos fields trace.
  induction fuel as [|fuel IH]; intros prevpos fields trace; simpl; [done|].
  destruct (captureResult_rule fields _) as [ws|] eqn:Hrule; [|done].
  apply captureResult_rule_assignments in Hrule as [<- <-].
  match goal with |- context [(?a <? endpos)%nat] =>
    destruct (a <? endpos)%nat end.
  - intros Hloop. apply IH in Hloop as ->. by rewrite <- app_assoc.
  - by intros [= <- <-].
Qed.

Lemma length_assignments dk segs :
  length (assignments dk segs) = length segs.
Proof.
  revert dk. induction segs as [|s segs IH]; intros dk; simpl; [done|].
  by rewrite IH.
Qed.

Lemma writes_to_app k t1 t2 :
  writes_to k (t1 ++ t2) = writes_to k t1 ++ writes_to k t2.
Proof. unfold writes_to. by rewrite concat_app, omap_app. Qed.

Lemma writes_to_not_written k trace :
  Forall (fun ws : list (string * jsval) => k ∉ ws.*1) trace ->
  writes_to k trace = [].
Proof.
  induction 1 as [|ws trace Hk _ IH]; [done|].
  change (ws :: trace) with ([ws] ++ trace).
  rewrite writes_to_app, IH, app_nil_r.
  unfold writes_to. simpl. rewrite app_nil_r.
  induction ws as [|w ws IHws]; [done|]. simpl in *.
  rewrite not_elem_of_cons in Hk. destruct Hk as [Hne Hk].
  rewrite decide_False by done. by apply IHws.
Qed.

Lemma writes_to_once k v (ws : list (string * jsval)) :
  NoDup ws.*1 -> (k, v) ∈ ws -> writes_to k [ws] = [v].
Proof.
  unfold writes_to. simpl. rewrite app_nil_r.
  induction ws as [|w ws IH]; intros Hnd Hin; [by apply elem_of_nil in Hin|].
  simpl in *. apply NoDup_cons in Hnd as [Hw Hnd].
  apply elem_of_cons in Hin as [<-|Hin].
  - simpl. rewrite decide_True by done. f_equal.
    assert (Forall (fun ws : list (string * jsval) => k ∉ ws.*1) [ws])
      as H by (by apply Forall_singleton).
    apply writes_to_not_written in H. unfold writes_to in H. simpl in H.
    by rewrite app_nil_r in H.
  - rewrite decide_False.
    + by apply IH.
    + intros E. apply Hw. rewrite E.
      by apply (list_elem_of_fmap_2 fst ws (k, v)).
Qed.

(** C6, amended. In every decode that gives fields, the assignments are
    those the rule chain makes for each segment in turn, from the
    segment and the Digi-Key test alone: a segment that matches a rule
    for a key assigns it, whether or not the key is set already. Each
    segment assigns each key at most once, every key, [unknown] or not,
    holds the last value assigned to it: the value a segment assigns to
    a key is the one of the result when no later segment assigns that
    key, whatever the segments before assigned to it. *)
Theorem every_key_last_write_wins data fields trace :
  captureResult_decode data = Some (Fields fields trace) ->
  trace = assignments false (segments data)
  /\ length trace = length (segments data)
  /\ Forall (fun ws => NoDup ws.*1) trace
  /\ (forall k, fields !! k = last (writes_to k trace))
  /\ (forall k v before ws after,
        assignments false (segments data) = before ++ ws :: after ->
        (k, v) ∈ ws ->
        Forall (fun ws' : list (string * jsval) => k ∉ ws'.*1) after ->
        fields !! k = Some v).
Proof.
  unfold captureResult_decode, segments.
  destruct (captureResult_noread data); [done|]. intros H.
  assert (trace = assignments false
                    (captureResult_segments (S (length data)) data
                       (captureResult_endpos data (length data)) 0)) as Htr
    by exact (captureResult_loop_assignments _ _ _ _ _ _ _ _ H).
  apply captureResult_loop_trace in H as (-> & Hnd & _ & _);
    [|done|by apply Forall_nil].
  assert (forall k, assign_all ∅ (concat trace) !! k
                    = last (writes_to k trace)) as Hlast.
  { intros k. rewrite assign_all_lookup, lookup_empty.
    unfold writes_to. by destruct (last _). }
  split; [done|]. split; [by rewrite Htr, length_assignments|].
  split; [done|]. split; [done|].
  intros k v before ws after E Hin Hafter.
  rewrite Hlast, Htr, E.
  change (before ++ ws :: after) with (before ++ [ws] ++ after).
  rewrite !writes_to_app, (writes_to_not_written k after Hafter), app_nil_r.
  rewrite (writes_to_once k v ws); [by rewrite last_snoc| |done].
  rewrite Htr, E in Hnd. apply Forall_app in Hnd as [_ Hnd].
  by apply Forall_cons in Hnd as [Hnd _].
Qed.

Lemma every_key_last_write_wins_witness :
  let trace :=
    [[("mfg_pn", JStr (lit "AAA"))]; [("mfg_pn", JStr (lit "BBB"))]] in
  let fields : gmap string jsval := {["mfg_pn" := JStr (lit "BBB")]} in
  trace = assignments false (segments answer_twice_1P)
  /\ length trace = length (segments answer_twice_1P)
  /\ Forall (fun ws : list (string * jsval) => NoDup ws.*1) trace
  /\ (forall k, fields !! k = last (writes_to k trace))
  /\ (forall k v before ws after,
        assignments false (segments answer_twice_1P)
        = before ++ ws :: after ->
        (k, v) ∈ ws ->
        Forall (fun ws' : list (string * jsval) => k ∉ ws'.*1) after ->
        fields !! k = Some v).
Proof.
  apply (every_key_last_write_wins answer_twice_1P).
  vm_compute. reflexivity.
Defined.

(** ** Text of the answer *)

Lemma to_N_byte_of_ascii a : Byte.to_N (byte_of_ascii a) = N_of_ascii a.
Proof. destruct a as [[] [] [] [] [] [] [] []]; reflexivity. Qed.

Lemma utf8_decode_ascii data :
  Forall (fun b => (Byte.to_N b < 128)%N) data ->
  Buffer.utf8_decode None data = map Byte.to_N data.
Proof.
  induction 1 as [|b data Hb _ IH]; [done|]. cbn [Buffer.utf8_decode map].
  unfold Buffer.utf8_lead.
  destruct (N.leb_spec (Byte.to_N b) 127); [|lia]. by rewrite IH.
Qed.

Lemma flat_map_utf16_small l :
  Forall (fun c => (c < 128)%N) l -> flat_map Buffer.utf16 l = l.
Proof.
  induction 1 as [|c l Hc _ IH]; [done|]. cbn [flat_map]. rewrite IH.
  unfold Buffer.utf16. destruct (N.ltb_spec c 65536); [done | lia].
Qed.

(** The bytes of a text of ASCII characters are read back as that text,
    one code unit per byte. *)
Theorem toString_from_ascii s :
  Forall (fun a => (N_of_ascii a < 128)%N) (list_ascii_of_string s) ->
  Buffer.toString (Buffer.from s) = lit s.
Proof.
  intros Hs. unfold Buffer.toString, Buffer.from, lit.
  assert (map Byte.to_N (list_byte_of_string s)
          = map N_of_ascii (list_ascii_of_string s)) as Hmap.
  { induction s as [|a s IH]; [done|]. simpl.
    rewrite to_N_byte_of_ascii. f_equal. apply IH.
    by apply Forall_inv_tail in Hs. }
  rewrite utf8_decode_ascii.
  - rewrite Hmap. apply flat_map_utf16_small. by apply Forall_map.
  - rewrite <- Forall_map with (f := Byte.to_N) (P := fun c => (c < 128)%N).
    rewrite Hmap. by apply Forall_map.
Qed.

Lemma toString_from_ascii_witness :
  Buffer.toString (Buffer.from "1P1234") = lit "1P1234".
Proof.
  apply (toString_from_ascii "1P1234").
  apply (bool_decide_unpack _). by vm_compute.
Defined.

Lemma trimStart_suffix s : exists k, s = k ++ trimStart s.
Proof.
  induction s as [|c s [k IH]]; [by exists []|]. simpl.
  destruct (is_space c); [|by exists []].
  exists (c :: k). simpl. by rewrite <- IH.
Qed.

Lemma trimStart_head s c : head (trimStart s) = Some c -> is_space c = false.
Proof.
  induction s as [|x s IH]; [done|]. simpl.
  destruct (is_space x) eqn:Hx; [done|]. by intros [= <-].
Qed.

Lemma trimStart_id s :
  (forall c, head s = Some c -> is_space c = false) -> trimStart s = s.
Proof. destruct s as [|x s]; [done|]. simpl. intros H. by rewrite H. Qed.

Lemma head_rev {A} (l : list A) : head (rev l) = last l.
Proof.
  induction l as [|x l IH] using rev_ind; [done|].
  by rewrite rev_app_distr, last_snoc.
Qed.

Lemma trim_ends s :
  (forall c, head (trim s) = Some c -> is_space c = false)
  /\ (forall c, last (trim s) = Some c -> is_space c = false).
Proof.
  unfold trim, trimEnd. split; intros c.
  - destruct (trimStart_suffix (rev (trimStart s))) as [k Hk].
    apply (f_equal (@rev N)) in Hk.
    rewrite rev_involutive, rev_app_distr in Hk.
    destruct (rev (trimStart (rev (trimStart s)))) as [|x l] eqn:Hl; [done|].
    simpl. intros [= ->]. apply (trimStart_head s). by rewrite Hk.
  - rewrite <- head_rev, rev_involutive. apply trimStart_head.
Qed.

Lemma trim_id s :
  (forall c, head s = Some c -> is_space c = false) ->
  (forall c, last s = Some c -> is_space c = false) ->
  trim s = s.
Proof.
  intros Hh Hl. unfold trim, trimEnd. rewrite (trimStart_id s Hh).
  rewrite trimStart_id; [apply rev_involutive|].
  intros c. rewrite head_rev. apply Hl.
Qed.

Lemma replace_RS_ends s :
  (forall c, head s = Some c -> is_space c = false) ->
  (forall c, last s = Some c -> is_space c = false) ->
  (forall c, head (replace_RS s) = Some c -> is_space c = false)
  /\ (forall c, last (replace_RS s) = Some c -> is_space c = false).
Proof.
  intros Hh Hl. unfold replace_RS. split; intros c.
  - destruct s as [|x s]; [done|]. simpl.
    destruct (N.eqb_spec x 30); simpl; intros [= <-]; [done|]. by apply Hh.
  - destruct s as [|x s _] using rev_ind; [done|].
    rewrite flat_map_app. simpl. rewrite app_nil_r.
    destruct (N.eqb_spec x 30).
    + change (lit "<RS>") with ([60; 82; 83] ++ [62])%N.
      rewrite app_assoc, last_snoc. by intros [= <-].
    + rewrite last_snoc. intros [= <-]. apply Hl. by rewrite last_snoc.
Qed.

Lemma replace_RS_no_RS s : 30%N ∉ replace_RS s.
Proof.
  unfold replace_RS. induction s as [|x s IH]; simpl; [by apply not_elem_of_nil|].
  rewrite elem_of_app. intros [H|H]; [|done].
  destruct (N.eqb_spec x 30).
  - by vm_compute in H; repeat (apply elem_of_cons in H as [H|H]; [done|]);
      apply elem_of_nil in H.
  - apply list_elem_of_singleton in H. congruence.
Qed.

(** Every segment the loop visits is clean: it has no white space at
    either end (trimming it again changes nothing) and no RS character,
    each RS having become the four characters of the marker. *)
Theorem segments_are_clean data :
  Forall (fun field => trim field = field /\ 30%N ∉ field) (segments data).
Proof.
  unfold segments.
  generalize (S (length data)) (captureResult_endpos data (length data)) 0%nat.
  intros fuel endpos. induction fuel as [|fuel IH]; intros prevpos; simpl;
    [by apply Forall_nil|].
  apply Forall_cons. split.
  - split; [|apply replace_RS_no_RS].
    match goal with |- trim (replace_RS (trim ?x)) = _ =>
      destruct (trim_ends x) as [Hh Hl];
      destruct (replace_RS_ends (trim x) Hh Hl) as [Hh' Hl'] end.
    apply trim_id; assumption.
  - case_match; [apply IH | by apply Forall_nil].
Qed.

(** * Further properties of the driver *)

(** On a connected session [setTargetPattern] is idempotent: it writes
    at most one command, a second call with the same argument does
    nothing, and with no capture pending the aim state is the argument
    afterwards. *)
Theorem setTargetPattern_idempotent enabled w s :
  _sock (camera w) = Some s ->
  setTargetPattern enabled (setTargetPattern enabled w)
  = setTargetPattern enabled w
  /\ (wire (setTargetPattern enabled w) = wire w
      \/ wire (setTargetPattern enabled w)
         = wire w ++ [(s, target_command enabled)])
  /\ (capture_pending w = false ->
      _targetPattern (camera (setTargetPattern enabled w)) = Some enabled).
Proof.
  intros Hs. unfold capture_pending.
  destruct (decide (_targetPattern (camera w) = Some enabled)) as [Heq|Hne].
  - assert (setTargetPattern enabled w = w) as H
      by (unfold setTargetPattern; by rewrite decide_True).
    rewrite !H. by eauto.
  - destruct (_captureTimeout (camera w)) as [t|] eqn:Ht.
    + assert (setTargetPattern enabled w = w) as H
        by (unfold setTargetPattern; rewrite decide_False by done;
            by rewrite Ht).
      rewrite !H. split; [done|]. split; [by left | done].
    + assert (setTargetPattern enabled w
              = emit (SockWrite s (target_command enabled))
                  (set_targetPattern (Some enabled) w)) as ->.
      { unfold setTargetPattern, setTargetPattern_rest.
        rewrite decide_False by done. by rewrite Ht, Hs. }
      split; [|split].
      * unfold setTargetPattern. simpl. by rewrite decide_True.
      * right. by rewrite wire_emit_write.
      * done.
Qed.

Lemma setTargetPattern_idempotent_witness :
  setTargetPattern false (setTargetPattern false world_idle)
  = setTargetPattern false world_idle
  /\ (wire (setTargetPattern false world_idle) = wire world_idle
      \/ wire (setTargetPattern false world_idle)
         = wire world_idle ++ [(0%nat, target_command false)])
  /\ (capture_pending world_idle = false ->
      _targetPattern (camera (setTargetPattern false world_idle))
      = Some false).
Proof. apply (setTargetPattern_idempotent false world_idle 0). reflexivity. Defined.

(** ** What the program sends, whatever happens *)

Lemma comes_after_refl w : comes_after w w.
Proof. exists []. by rewrite app_nil_r. Qed.

Lemma comes_after_trans w1 w2 w3 :
  comes_after w1 w2 -> comes_after w2 w3 -> comes_after w1 w3.
Proof.
  intros (l1 & Hs1 & Hf1 & Ht1) (l2 & Hs2 & Hf2 & Ht2).
  exists (l1 ++ l2). split; [|split].
  - by rewrite Hs2, Hs1, app_assoc.
  - by apply Forall_app.
  - rewrite Ht2, Ht1. unfold aims_of. rewrite omap_app, last_app.
    by destruct (last (omap _ l2)).
Qed.

(** A change that sends nothing and keeps the aim state. *)
Lemma comes_after_quiet w w' :
  sent w' = sent w ->
  _targetPattern (camera w') = _targetPattern (camera w) ->
  comes_after w w'.
Proof. intros Hs Ht. exists []. by rewrite app_nil_r. Qed.

Lemma comes_after_emit o w :
  expected_output o -> aims_of [o] = [] -> comes_after w (emit o w).
Proof.
  intros Ho Ha. exists [o]. split; [done|]. split; [by apply Forall_singleton|].
  by rewrite Ha.
Qed.

Lemma comes_after_setTargetPattern_rest enabled w :
  comes_after w (setTargetPattern_rest enabled w).
Proof.
  unfold setTargetPattern_rest.
  destruct (_sock (camera w)) as [s|]; [|apply comes_after_refl].
  exists [SockWrite s (target_command enabled)]. split; [done|]. split.
  - apply Forall_singleton. simpl. destruct enabled; tauto.
  - by destruct enabled.
Qed.

Lemma comes_after_triggerCapture_rest w :
  comes_after w (triggerCapture_rest w).
Proof.
  unfold triggerCapture_rest.
  destruct (_sock (camera w)) as [s|]; [|apply comes_after_refl].
  eapply comes_after_trans.
  - apply (comes_after_emit (SockWrite s capture_command)); [by left | done].
  - by apply comes_after_quiet.
Qed.

Lemma comes_after_triggerCapture w : comes_after w (triggerCapture w).
Proof.
  unfold triggerCapture. repeat case_match;
    [apply comes_after_refl | apply comes_after_triggerCapture_rest
    | by apply comes_after_quiet].
Qed.

Lemma comes_after_setTargetPattern enabled w :
  comes_after w (setTargetPattern enabled w).
Proof.
  unfold setTargetPattern. repeat (case_decide || case_match);
    try apply comes_after_refl;
    [apply comes_after_setTargetPattern_rest | by apply comes_after_quiet].
Qed.

Lemma comes_after_timedReportCallback value w :
  comes_after w (timedReportCallback value w).
Proof.
  unfold timedReportCallback.
  assert (comes_after w (set_lastMeasures (measure value (lastMeasures w)).1 w))
    as H0 by (by apply comes_after_quiet).
  destruct (measure value (lastMeasures w)).2 as [[avg stddev]|]; [|done].
  repeat case_match; try done;
    (eapply comes_after_trans; [exact H0|]);
    first [apply comes_after_triggerCapture | apply comes_after_setTargetPattern].
Qed.

Lemma comes_after_captureResult data w : comes_after w (captureResult data w).
Proof.
  unfold captureResult.
  assert (comes_after w (captureResult_clearTimeout w)) as H0.
  { unfold captureResult_clearTimeout.
    destruct (_captureTimeout (camera w)); [by apply comes_after_quiet|].
    apply comes_after_refl. }
  destruct (captureResult_decode data) as [[|fields trace|]|]; try done.
  - eapply comes_after_trans; [exact H0|]. cbv zeta.
    destruct (buzzer _).
    + eapply comes_after_trans; [|apply comes_after_emit; [by left | done]].
      by apply comes_after_quiet.
    + by apply comes_after_quiet.
  - eapply comes_after_trans; [exact H0|]. cbv zeta.
    eapply comes_after_trans; [|by apply comes_after_quiet].
    eapply comes_after_trans; [|by apply comes_after_emit].
    eapply comes_after_trans; [|apply comes_after_setTargetPattern].
    destruct (truthy (fields !! "mfg_pn")) eqn:Ht.
    + by apply comes_after_emit.
    + destruct (buzzer _); [|apply comes_after_refl].
      apply comes_after_emit; [by right | done].
Qed.

Lemma comes_after_step w e : comes_after w (step w e).
Proof.
  destruct e; simpl.
  - apply comes_after_timedReportCallback.
  - unfold deviceArrival. case_decide; [by apply comes_after_quiet|].
    apply comes_after_refl.
  - unfold socketConnected.
    destruct (list_find _ _) as [[i [s' k]]|]; [|apply comes_after_refl].
    destruct k.
    + eapply comes_after_trans; [|apply comes_after_triggerCapture_rest].
      by apply comes_after_quiet.
    + eapply comes_after_trans; [|apply comes_after_setTargetPattern_rest].
      by apply comes_after_quiet.
    + by apply comes_after_quiet.
  - by apply comes_after_quiet.
  - apply comes_after_captureResult.
  - unfold watchdogExpired. case_decide; [|apply comes_after_refl].
    eapply comes_after_trans; [|apply comes_after_triggerCapture].
    by apply comes_after_quiet.
  - unfold imageDownloaded.
    destruct (downloads w) as [|n]; [apply comes_after_refl|].
    apply comes_after_trans with (emit WriteImage (set_downloads n w));
      [|by apply comes_after_quiet].
    apply comes_after_trans with (set_downloads n w);
      [by apply comes_after_quiet | by apply comes_after_emit].
  - unfold imageFailed. destruct (downloads w); [apply comes_after_refl|].
    by apply comes_after_quiet.
Qed.

Lemma comes_after_run w es : comes_after w (run w es).
Proof.
  revert w. induction es as [|e es IH]; intros w; [apply comes_after_refl|].
  simpl. eapply comes_after_trans; [apply comes_after_step | apply IH].
Qed.

(** Whatever happens, the program writes to the camera nothing but its
    three commands, plays nothing but its two melodies, and searches
    only for a part number that is a non-empty text. *)
Theorem only_expected_outputs w es :
  Forall expected_output (sent w) -> Forall expected_output (sent (run w es)).
Proof.
  intros Hw. destruct (comes_after_run w es) as (l & -> & Hl & _).
  by apply Forall_app.
Qed.

Lemma only_expected_outputs_witness :
  Forall expected_output
    (sent (run world_idle
             [SampleArrived 48; SampleArrived 48; SampleArrived 48;
              SampleArrived 48; SampleArrived 48; DataReceived answer_three;
              ImageDownloaded; SampleArrived 80])).
Proof.
  apply (only_expected_outputs world_idle).
  apply Forall_singleton. simpl. tauto.
Defined.

(** Whatever happens, the aim state the driver keeps is the last aim
    command it wrote to the camera (and none while it wrote none),
    if it was so at the start. *)
Theorem aim_state_is_last_command w es :
  last (aims_of (sent w)) = _targetPattern (camera w) ->
  last (aims_of (sent (run w es))) = _targetPattern (camera (run w es)).
Proof.
  intros Hw. destruct (comes_after_run w es) as (l & -> & _ & ->).
  unfold aims_of. rewrite omap_app, last_app.
  by destruct (last (omap _ l)).
Qed.

Lemma aim_state_is_last_command_witness :
  last (aims_of (sent (run world_idle
                         [SampleArrived 80; DataReceived answer_three;
                          ConnectionClosed; ImageDownloaded])))
  = _targetPattern (camera (run world_idle
                              [SampleArrived 80; DataReceived answer_three;
                               ConnectionClosed; ImageDownloaded])).
Proof. apply (aim_state_is_last_command world_idle). reflexivity. Defined.

(** ** The watchdog *)

Lemma watchdog_fires_connected w s t :
  _sock (camera w) = Some s ->
  _captureTimeout (camera w) = Some t ->
  t ∈ timers w ->
  one_request_pending w ->
  let w' := watchdog_fires w in
  wire w' = wire w ++ [(s, capture_command)]
  /\ _sock (camera w') = Some s
  /\ _captureTimeout (camera w') = Some (fresh w)
  /\ timers w' = {[fresh w]}
  /\ one_request_pending w'.
Proof.
  intros Hs Ht Hin Hone. unfold watchdog_fires. rewrite Ht.
  unfold watchdogExpired. rewrite decide_True by done.
  rewrite (triggerCapture_idle _ s) by done. simpl.
  assert (timers w ∖ {[t]} = (∅ : gset nat)) as Hempty.
  { apply leibniz_equiv. apply elem_of_equiv_empty. intros t' Ht'.
    apply elem_of_difference in Ht' as [Ht' Hne]. apply Hone in Ht'.
    rewrite Ht in Ht'. injection Ht' as ->. set_solver. }
  repeat split.
  - unfold wire. simpl. by rewrite omap_app.
  - done.
  - rewrite Hempty. set_solver.
  - intros t'. simpl. rewrite Hempty. intros Ht'.
    assert (t' = fresh w) as -> by set_solver. done.
Qed.

(** With the session connected and no answer, each expiry of the
    watchdog sends the capture command once more and arms one new
    watchdog: after [n] expiries the command has been sent [n] more
    times and exactly one watchdog is armed. *)
Theorem watchdog_retries n w s t :
  _sock (camera w) = Some s ->
  _captureTimeout (camera w) = Some t ->
  t ∈ timers w ->
  one_request_pending w ->
  let w' := Nat.iter n watchdog_fires w in
  wire w' = wire w ++ replicate n (s, capture_command)
  /\ captures_sent w' = (captures_sent w + n)%nat
  /\ capture_pending w' = true
  /\ size (timers w') = 1%nat.
Proof.
  intros Hs Ht Hin Hone.
  assert (let w' := Nat.iter n watchdog_fires w in
          wire w' = wire w ++ replicate n (s, capture_command)
          /\ _sock (camera w') = Some s
          /\ (exists t', _captureTimeout (camera w') = Some t'
                         /\ t' ∈ timers w')
          /\ one_request_pending w') as (Hw & _ & (t' & Ht' & Hin') & Hone').
  { induction n as [|n (IH1 & IH2 & (t' & IH3 & IH4) & IH5)]; simpl.
    - rewrite app_nil_r. repeat split; eauto.
    - destruct (watchdog_fires_connected _ s t' IH2 IH3 IH4 IH5)
        as (H1 & H2 & H3 & H4 & H5).
      repeat split; try done.
      + rewrite H1, IH1, <- app_assoc. f_equal.
        by rewrite <- replicate_S_end.
      + exists (fresh (Nat.iter n watchdog_fires w)). split; [done|].
        rewrite H4. set_solver. }
  cbv zeta. repeat split.
  - done.
  - rewrite (captures_sent_app w _ _ Hw). f_equal.
    clear. induction n as [|n IH]; [done|].
    rewrite replicate_S, filter_cons_True by done. cbn [length].
    by rewrite IH.
  - unfold capture_pending. by rewrite Ht'.
  - pose proof (one_request_pending_size _ Hone') as Hle.
    destruct (decide (size (timers (Nat.iter n watchdog_fires w)) = 0%nat))
      as [Hz|]; [|lia].
    apply size_empty_iff in Hz. set_solver.
Qed.

Lemma watchdog_retries_witness :
  let w' := Nat.iter 3 watchdog_fires world_pending in
  wire w' = wire world_pending ++ replicate 3 (0%nat, capture_command)
  /\ captures_sent w' = (captures_sent world_pending + 3)%nat
  /\ capture_pending w' = true
  /\ size (timers w') = 1%nat.
Proof.
  apply (watchdog_retries 3 world_pending 0 1); try reflexivity.
  intros t Ht.
  change (timers world_pending) with ({[1%nat]} ∪ ∅ : gset nat) in Ht.
  assert (t = 1%nat) as -> by set_solver. reflexivity.
Defined.

(** ** Reconnection *)

Lemma delete_middle {A} (l k : list A) x :
  delete (length l) (l ++ x :: k) = l ++ k.
Proof. induction l as [|y l IH]; simpl; [done|]. by f_equal. Qed.

Lemma socketConnected_last w s k :
  Forall (fun c : nat * awaiting => c.1 <> s) (connecting w) ->
  socketConnected s (set_connecting (connecting w ++ [(s, k)]) w)
  = match k with
    | rest_of_triggerCapture => triggerCapture_rest (set_sock (Some s) w)
    | rest_of_setTargetPattern enabled =>
        setTargetPattern_rest enabled (set_sock (Some s) w)
    | nothing => set_sock (Some s) w
    end.
Proof.
  intros Hfresh. unfold socketConnected. simpl.
  assert (list_find (fun c : nat * awaiting => c.1 = s)
            (connecting w ++ [(s, k)])
          = Some (length (connecting w), (s, k))) as ->.
  { apply list_find_Some. split; [|split].
    - by rewrite lookup_app_r, Nat.sub_diag.
    - done.
    - intros j c Hj Hlt. rewrite lookup_app_l in Hj by done.
      rewrite Forall_lookup in Hfresh. by eapply Hfresh. }
  assert (delete (length (connecting w)) (connecting w ++ [(s, k)])
          = connecting w) as Hdel.
  { by rewrite delete_middle, app_nil_r. }
  simpl. rewrite Hdel.
  by destruct w as [[]], k.
Qed.

(** After the connection is lost, the next [triggerCapture()] sends
    nothing at once but opens a new connection, and the capture command
    is written as soon as that one is established; the same holds for
    the watchdog of a capture that was pending when the connection was
    lost. *)
Theorem capture_reconnects w :
  _sock (camera w) = None ->
  Forall (fun c : nat * awaiting => c.1 <> fresh w) (connecting w) ->
  (_captureTimeout (camera w) = None ->
   wire (triggerCapture w) = wire w
   /\ let w' := socketConnected (fresh w) (triggerCapture w) in
      wire w' = wire w ++ [(fresh w, capture_command)]
      /\ _sock (camera w') = Some (fresh w)
      /\ capture_pending w' = true)
  /\ (forall t,
        _captureTimeout (camera w) = Some t -> t ∈ timers w ->
        wire (watchdogExpired t w) = wire w
        /\ let w' := socketConnected (fresh w) (watchdogExpired t w) in
           wire w' = wire w ++ [(fresh w, capture_command)]
           /\ _sock (camera w') = Some (fresh w)
           /\ capture_pending w' = true).
Proof.
  intros Hs Hfresh.
  assert (forall w0, _sock (camera w0) = None ->
            _captureTimeout (camera w0) = None ->
            Forall (fun c : nat * awaiting => c.1 <> fresh w0) (connecting w0) ->
            wire (triggerCapture w0) = wire w0
            /\ let w' := socketConnected (fresh w0) (triggerCapture w0) in
               wire w' = wire w0 ++ [(fresh w0, capture_command)]
               /\ _sock (camera w') = Some (fresh w0)
               /\ capture_pending w' = true) as Hgen.
  { intros w0 Hs0 Ht0 Hf0. unfold triggerCapture. rewrite Ht0, Hs0.
    split; [done|]. unfold connect.
    change (set_fresh (S (fresh w0))
              (set_connecting (connecting w0 ++ [(fresh w0, rest_of_triggerCapture)]) w0))
      with (set_connecting
              (connecting (set_fresh (S (fresh w0)) w0)
               ++ [(fresh w0, rest_of_triggerCapture)])
              (set_fresh (S (fresh w0)) w0)).
    rewrite socketConnected_last by done.
    unfold triggerCapture_rest. simpl. repeat split.
    unfold wire. simpl. by rewrite omap_app. }
  split.
  - intros Ht. by apply Hgen.
  - intros t Ht Hin. unfold watchdogExpired. rewrite decide_True by done.
    by apply (Hgen (set_captureTimeout None (clearTimeout t w))).
Qed.

Lemma capture_reconnects_witness :
  (wire (triggerCapture (socketClosed world_idle))
   = wire (socketClosed world_idle)
   /\ let w' := socketConnected 1 (triggerCapture (socketClosed world_idle)) in
      wire w' = wire (socketClosed world_idle) ++ [(1%nat, capture_command)]
      /\ _sock (camera w') = Some 1%nat
      /\ capture_pending w' = true)
  /\ (wire (watchdogExpired 1 (socketClosed world_pending))
      = wire (socketClosed world_pending)
      /\ let w' := socketConnected 2
                     (watchdogExpired 1 (socketClosed world_pending)) in
         wire w' = wire (socketClosed world_pending)
                   ++ [(2%nat, capture_command)]
         /\ _sock (camera w') = Some 2%nat
         /\ capture_pending w' = true).
Proof.
  split.
  - apply (proj1 (capture_reconnects (socketClosed world_idle)
                    eq_refl (Forall_nil_2 _))). reflexivity.
  - apply (proj2 (capture_reconnects (socketClosed world_pending)
                    eq_refl (Forall_nil_2 _)) 1%nat); [reflexivity|].
    apply (bool_decide_unpack _). by vm_compute.
Defined.

(** With no socket and no capture pending, two calls of
    [triggerCapture()] in immediate succession both start a connection,
    and once the two sockets are connected the capture command has been
    written twice, once on each, and two watchdogs are armed. *)
Theorem triggerCapture_twice_when_disconnected w :
  _sock (camera w) = None ->
  _captureTimeout (camera w) = None ->
  Forall (fun c : nat * awaiting => (c.1 < fresh w)%nat) (connecting w) ->
  let w' := socketConnected (S (fresh w))
              (socketConnected (fresh w)
                 (triggerCapture (triggerCapture w))) in
  wire w' = wire w ++ [(fresh w, capture_command);
                       (S (fresh w), capture_command)]
  /\ captures_sent w' = (captures_sent w + 2)%nat
  /\ S (S (fresh w)) ∈ timers w'
  /\ S (S (S (fresh w))) ∈ timers w'.
Proof.
  intros Hs Ht Hfresh.
  assert (triggerCapture (triggerCapture w)
          = set_fresh (S (S (fresh w)))
              (set_connecting
                 (connecting w ++ [(fresh w, rest_of_triggerCapture);
                                   (S (fresh w), rest_of_triggerCapture)]) w))
    as ->.
  { unfold triggerCapture at 2. rewrite Ht, Hs.
    unfold triggerCapture, connect. simpl. rewrite Ht, Hs. simpl.
    by rewrite <- app_assoc. }
  assert (socketConnected (fresh w)
            (set_fresh (S (S (fresh w)))
               (set_connecting
                  (connecting w ++ [(fresh w, rest_of_triggerCapture);
                                    (S (fresh w), rest_of_triggerCapture)])
                  w))
          = triggerCapture_rest
              (set_sock (Some (fresh w))
                 (set_fresh (S (S (fresh w)))
                    (set_connecting
                       (connecting w ++ [(S (fresh w), rest_of_triggerCapture)])
                       w)))) as ->.
  { unfold socketConnected. simpl.
    assert (list_find (fun c : nat * awaiting => c.1 = fresh w)
              (connecting w ++ [(fresh w, rest_of_triggerCapture);
                                (S (fresh w), rest_of_triggerCapture)])
            = Some (length (connecting w), (fresh w, rest_of_triggerCapture)))
      as ->.
    { apply list_find_Some. split; [|split].
      - by rewrite lookup_app_r, Nat.sub_diag.
      - done.
      - intros j c Hj Hlt. rewrite lookup_app_l in Hj by done.
        rewrite Forall_lookup in Hfresh. apply Hfresh in Hj. simpl. lia. }
    simpl. rewrite delete_middle.
    by destruct w as [[]]. }
  unfold triggerCapture_rest at 1. simpl.
  match goal with |- context [socketConnected _ ?x] => set (w1 := x) end.
  assert (w1 = set_connecting
                 (connecting (set_connecting (connecting w) w1)
                  ++ [(S (fresh w), rest_of_triggerCapture)])
                 (set_connecting (connecting w) w1)) as Hw1 by done.
  cbv zeta. rewrite Hw1, socketConnected_last.
  - subst w1. unfold triggerCapture_rest. simpl.
    assert (wire (setTimeout
                    (emit (SockWrite (S (fresh w)) capture_command)
                       (set_sock (Some (S (fresh w)))
                          (set_connecting (connecting w)
                             (setTimeout
                                (emit (SockWrite (fresh w) capture_command)
                                   (set_sock (Some (fresh w))
                                      (set_fresh (S (S (fresh w)))
                                         (set_connecting
                                            (connecting w ++
                                             [(S (fresh w),
                                               rest_of_triggerCapture)])
                                            w)))))))))
            = wire w ++ [(fresh w, capture_command);
                         (S (fresh w), capture_command)]) as Hwire.
    { unfold wire. simpl. rewrite !omap_app. simpl. by rewrite <- app_assoc. }
    split; [exact Hwire|]. split.
    + rewrite (captures_sent_app w _ _ Hwire).
      f_equal; try by rewrite !filter_cons_True.
    + simpl. split; set_solver.
  - subst w1. simpl. eapply Forall_impl; [exact Hfresh|]. simpl. lia.
Qed.

Lemma triggerCapture_twice_when_disconnected_witness :
  let w' := socketConnected 2
              (socketConnected 1
                 (triggerCapture (triggerCapture (socketClosed world_idle)))) in
  wire w' = wire (socketClosed world_idle)
            ++ [(1%nat, capture_command); (2%nat, capture_command)]
  /\ captures_sent w' = (captures_sent (socketClosed world_idle) + 2)%nat
  /\ 3%nat ∈ timers w'
  /\ 4%nat ∈ timers w'.
Proof.
  apply (triggerCapture_twice_when_disconnected (socketClosed world_idle));
    try reflexivity. apply Forall_nil_2.
Defined.

(** ** At most one request in flight *)

Lemma one_request_pending_none w :
  one_request_pending w -> _captureTimeout (camera w) = None -> timers w = ∅.
Proof.
  intros Hone Ht. apply leibniz_equiv. apply elem_of_equiv_empty.
  intros t Hin. apply Hone in Hin. congruence.
Qed.

Lemma one_request_pending_cleared w t :
  one_request_pending w -> _captureTimeout (camera w) = Some t ->
  timers w ∖ {[t]} = ∅.
Proof.
  intros Hone Ht. apply leibniz_equiv. apply elem_of_equiv_empty.
  intros t' Hin. apply elem_of_difference in Hin as [Hin Hne].
  apply Hone in Hin. rewrite Ht in Hin. injection Hin as ->. set_solver.
Qed.

(** A change that leaves the socket, the flag, the timers, the
    connections and the downloads as they are keeps the session steady. *)
Lemma steady_ext w w' :
  _sock (camera w') = _sock (camera w) ->
  _captureTimeout (camera w') = _captureTimeout (camera w) ->
  timers w' = timers w ->
  connecting w' = connecting w ->
  downloads w' = downloads w ->
  steady w -> steady w'.
Proof.
  unfold steady, one_request_pending. intros -> -> -> -> ->. done.
Qed.

Lemma steady_idle w :
  is_Some (_sock (camera w)) ->
  Forall (fun c : nat * awaiting => c.2 = nothing) (connecting w) ->
  timers w = ∅ ->
  downloads w = 0%nat ->
  steady w.
Proof.
  intros Hs Hc Ht Hd. unfold steady, one_request_pending.
  rewrite Ht, Hd. split; [done|]. split; [set_solver|]. split; [done|].
  split; lia.
Qed.

Lemma steady_triggerCapture w : steady w -> steady (triggerCapture w).
Proof.
  intros Hst. pose proof Hst as (Hs & Hone & Hc & Hd & Hdl).
  unfold triggerCapture.
  destruct (_captureTimeout (camera w)) as [t|] eqn:Ht; [done|].
  destruct Hs as [s Hs]. rewrite Hs. unfold triggerCapture_rest. rewrite Hs.
  pose proof (one_request_pending_none w Hone Ht) as Hempty.
  unfold steady, one_request_pending. simpl. rewrite Hs, Hempty.
  split; [by eexists|]. split.
  { intros t Hin. assert (t = fresh w) as -> by set_solver. done. }
  split; [done|]. split; [done|].
  intros Hpos. destruct Hdl as [[? Hx] _]; [done|]. congruence.
Qed.

Lemma steady_setTargetPattern enabled w :
  steady w -> steady (setTargetPattern enabled w).
Proof.
  intros Hst. unfold setTargetPattern.
  case_decide; [done|].
  destruct (_captureTimeout (camera w)) as [t|] eqn:Ht; [done|].
  pose proof Hst as ([s Hs] & _). rewrite Hs.
  unfold setTargetPattern_rest. rewrite Hs.
  by apply (steady_ext w).
Qed.

Lemma steady_timedReportCallback value w :
  steady w -> steady (timedReportCallback value w).
Proof.
  intros Hst. unfold timedReportCallback.
  assert (steady (set_lastMeasures (measure value (lastMeasures w)).1 w))
    as H0 by (by apply (steady_ext w)).
  destruct (measure value (lastMeasures w)).2 as [[avg stddev]|]; [|done].
  repeat case_match; try done;
    first [by apply steady_triggerCapture | by apply steady_setTargetPattern].
Qed.

Lemma steady_socketConnected s w : steady w -> steady (socketConnected s w).
Proof.
  intros Hst. unfold socketConnected.
  destruct (list_find _ _) as [[i [s' k]]|] eqn:Hfind; [|done].
  destruct Hst as (Hs & Hone & Hc & Hd & Hdl).
  apply list_find_Some in Hfind as (Hi & _ & _).
  assert (k = nothing) as ->.
  { rewrite Forall_lookup in Hc. by apply (Hc i (s', k)). }
  unfold steady, one_request_pending. simpl.
  split; [by eexists|]. split; [done|]. split; [by apply Forall_delete|].
  done.
Qed.

Lemma steady_captureResult data w :
  steady w -> expected w (DataReceived data) -> steady (captureResult data w).
Proof.
  intros (Hs & Hone & Hc & Hd & Hdl) [[t Ht] Hz]. unfold captureResult.
  unfold captureResult_clearTimeout. rewrite Ht.
  pose proof (one_request_pending_cleared w t Hone Ht) as Hempty.
  assert (steady (clearTimeout t w)) as H1.
  { unfold steady, one_request_pending. simpl. rewrite Hempty, Hz, Ht.
    split; [done|]. split; [set_solver|]. split; [done|]. split; lia. }
  destruct (captureResult_decode data) as [[|fields trace|]|]; try done.
  - cbv zeta. destruct (buzzer _); apply steady_idle; simpl; done.
  - cbv zeta.
    match goal with |- context [setTargetPattern false ?x] =>
      set (w2 := x) end.
    assert (_captureTimeout (camera w2) = Some t /\ _sock (camera w2) = _sock (camera w)
            /\ timers w2 = ∅ /\ connecting w2 = connecting w
            /\ downloads w2 = 0%nat) as (H2t & H2s & H2m & H2c & H2d).
    { subst w2. destruct (truthy _); [|destruct (buzzer _)]; simpl; done. }
    rewrite (setTargetPattern_pending false w2 t H2t).
    unfold steady, one_request_pending. simpl.
    rewrite H2t, H2s, H2m, H2c, H2d.
    split; [done|]. split; [set_solver|]. split; [done|]. split; [lia|].
    intros _. by split; [eexists|].
Qed.

Lemma steady_watchdogExpired t w : steady w -> steady (watchdogExpired t w).
Proof.
  intros Hst. unfold watchdogExpired. case_decide as Hin; [|done].
  destruct Hst as (Hs & Hone & Hc & Hd & Hdl).
  pose proof (Hone t Hin) as Ht.
  assert (downloads w = 0%nat) as Hz.
  { destruct (downloads w) as [|n] eqn:Hn; [done|].
    destruct Hdl as [_ He]; [lia|]. rewrite He in Hin. set_solver. }
  apply steady_triggerCapture. apply steady_idle; simpl; try done.
  by apply one_request_pending_cleared.
Qed.

Lemma steady_step w e : steady w -> expected w e -> steady (step w e).
Proof.
  intros Hst He. destruct e; simpl in *.
  - by apply steady_timedReportCallback.
  - unfold deviceArrival. case_decide; [|done]. by apply (steady_ext w).
  - by apply steady_socketConnected.
  - done.
  - by apply steady_captureResult.
  - by apply steady_watchdogExpired.
  - unfold imageDownloaded. destruct (downloads w) as [|n] eqn:Hn; [done|].
    destruct Hst as (Hs & Hone & Hc & Hd & Hdl).
    destruct Hdl as [_ Hempty]; [lia|].
    apply steady_idle; simpl; try done. lia.
  - unfold imageFailed. destruct (downloads w) as [|n] eqn:Hn; [done|].
    destruct Hst as (Hs & Hone & Hc & Hd & Hdl).
    destruct Hdl as [Hf Hempty]; [lia|].
    unfold steady, one_request_pending. simpl. rewrite Hempty.
    split; [done|]. split; [set_solver|]. split; [done|]. split; lia.
Qed.

(** As long as the connection stays up and the camera answers only a
    pending capture, one answer at a time, the session stays steady
    through samples, answers, watchdog expiries and downloads: at most
    one watchdog is ever armed, and it is the one of the pending
    request. *)
Theorem one_watchdog_while_connected w es :
  steady w ->
  all_expected w es ->
  steady (run w es)
  /\ one_request_pending (run w es)
  /\ (size (timers (run w es)) <= 1)%nat.
Proof.
  intros Hst Hes.
  assert (steady (run w es)) as H.
  { revert w Hst Hes. induction es as [|e es IH]; intros w Hst Hes;
      [done|]. destruct Hes as [He Hes].
    simpl. apply IH; [by apply steady_step | done]. }
  split; [done|]. split; [apply H|].
  apply one_request_pending_size, H.
Qed.

Lemma one_watchdog_while_connected_witness :
  let es := [SampleArrived 48; SampleArrived 48; SampleArrived 48;
             SampleArrived 48; SampleArrived 48; DataReceived answer_three;
             WatchdogExpired 1; ImageDownloaded; SampleArrived 48] in
  steady (run world_idle es)
  /\ one_request_pending (run world_idle es)
  /\ (size (timers (run world_idle es)) <= 1)%nat.
Proof.
  apply (one_watchdog_while_connected world_idle).
  - apply steady_idle; simpl; try done; by eexists.
  - repeat split; try done; vm_compute; by eexists.
Defined.

(** The program is steady once [startDemo] has run and its socket is
    connected; it has sent nothing yet. *)
Example startDemo_then_connected :
  startDemo true true = Some (connect nothing world_loaded)
  /\ startDemo true false = None
  /\ steady (socketConnected 0 (connect nothing world_loaded))
  /\ sent (socketConnected 0 (connect nothing world_loaded)) = [].
Proof.
  split; [done|]. split; [done|]. split; [|done].
  apply steady_idle; simpl; try done; by eexists.
Qed.

(** ** A flag that nothing clears *)

Lemma timedReportCallback_pending value w t :
  _captureTimeout (camera w) = Some t ->
  timedReportCallback value w
  = set_lastMeasures (measure value (lastMeasures w)).1 w.
Proof.
  intros Ht. unfold timedReportCallback.
  destruct (measure value (lastMeasures w)).2 as [[avg stddev]|]; [|done].
  repeat case_match; try done.
  - by apply (triggerCapture_pending _ t).
  - by apply (setTargetPattern_pending _ _ t).
  - by apply (setTargetPattern_pending _ _ t).
Qed.

Lemma wedged_step w e :
  wedged w -> (forall data, e <> DataReceived data) ->
  wedged (step w e) /\ wire (step w e) = wire w.
Proof.
  intros ([t Ht] & Hempty & Hz & Hc) He. destruct e; simpl.
  - rewrite (timedReportCallback_pending _ _ t Ht).
    split; [|done]. unfold wedged. simpl. by rewrite Ht, Hempty.
  - unfold deviceArrival. case_decide; [|by unfold wedged; eauto].
    split; [|done]. unfold wedged. simpl. by rewrite Ht, Hempty.
  - unfold socketConnected.
    destruct (list_find _ _) as [[i [s' k]]|] eqn:Hfind;
      [|by unfold wedged; eauto].
    apply list_find_Some in Hfind as (Hi & _ & _).
    assert (k = nothing) as ->.
    { rewrite Forall_lookup in Hc. by apply (Hc i (s', k)). }
    split; [|done]. unfold wedged. simpl. rewrite Ht, Hempty.
    repeat split; try done. by apply Forall_delete.
  - split; [|done]. unfold wedged. simpl. by rewrite Ht, Hempty.
  - by destruct (He data).
  - unfold watchdogExpired. rewrite Hempty.
    rewrite decide_False by set_solver. by unfold wedged; eauto.
  - unfold imageDownloaded. rewrite Hz. by unfold wedged; eauto.
  - unfold imageFailed. rewrite Hz. by unfold wedged; eauto.
Qed.

(** The two ways into it: on a steady session, an answer that makes the
    decoder raise its TypeError, and an image download that fails, both
    leave the flag set with no watchdog armed and no download under way. *)
Theorem wedged_after_failure w :
  steady w ->
  (forall data,
     expected w (DataReceived data) ->
     captureResult_decode data = Some Raised ->
     wedged (captureResult data w))
  /\ (downloads w = 1%nat -> wedged (imageFailed w)).
Proof.
  intros (Hs & Hone & Hc & Hd & Hdl). split.
  - intros data [[t Ht] Hz] Hr. unfold captureResult. rewrite Hr.
    unfold captureResult_clearTimeout, wedged. rewrite Ht. simpl.
    rewrite Ht. split; [by eexists|]. split; [|done].
    by apply one_request_pending_cleared.
  - intros H1. unfold imageFailed, wedged. rewrite H1. simpl.
    destruct Hdl as [Hf Hempty]; [lia|]. done.
Qed.

Lemma wedged_after_failure_witness :
  wedged (captureResult answer_GWCR_short world_pending)
  /\ wedged (imageFailed (captureResult answer_three world_pending)).
Proof.
  assert (steady world_pending) as Hp.
  { apply steady_triggerCapture. apply steady_idle; simpl; try done;
      by eexists. }
  split.
  - apply (proj1 (wedged_after_failure world_pending Hp)).
    + split; [by eexists | done].
    + vm_compute. reflexivity.
  - apply (proj2 (wedged_after_failure
                    (captureResult answer_three world_pending)
                    (steady_captureResult answer_three world_pending Hp
                       (conj (ex_intro _ 1%nat eq_refl) eq_refl)))).
    vm_compute. reflexivity.
Defined.

(** Once the flag is set with no watchdog armed, no download under way
    and no call waiting for a connection, nothing but a new answer of
    the camera changes that: through samples, device arrivals,
    connections, expiries and downloads the program never writes to the
    camera again. *)
Theorem wedged_forever w es :
  wedged w ->
  Forall (fun e => forall data, e <> DataReceived data) es ->
  wedged (run w es)
  /\ wire (run w es) = wire w
  /\ captures_sent (run w es) = captures_sent w.
Proof.
  intros Hw Hes.
  assert (wedged (run w es) /\ wire (run w es) = wire w) as [H1 H2].
  { revert w Hw. induction Hes as [|e es He _ IH]; intros w Hw; [done|].
    simpl. destruct (wedged_step w e Hw He) as [Hw' Hwire].
    destruct (IH _ Hw') as [? ?]. split; [done | congruence]. }
  split; [done|]. split; [done|]. unfold captures_sent. by rewrite H2.
Qed.

Lemma wedged_forever_witness :
  let w := captureResult answer_GWCR_short world_pending in
  let es := [SampleArrived 48; SampleArrived 48; SampleArrived 48;
             SampleArrived 48; SampleArrived 48; WatchdogExpired 1;
             ConnectionClosed; SampleArrived 48] in
  wedged (run w es)
  /\ wire (run w es) = wire w
  /\ captures_sent (run w es) = captures_sent w.
Proof.
  apply (wedged_forever (captureResult answer_GWCR_short world_pending)).
  - vm_compute. repeat split; [by eexists | constructor].
  - repeat constructor; discriminate.
Defined.

(** * Further properties of the range-finder callback *)

(** A report changes nothing but the window of measures in two cases:
    while fewer than five measures have been collected, when the new
    measure is simply added, and while a capture is pending. *)
Theorem reports_that_only_measure value w :
  ((length (lastMeasures w) < 4)%nat ->
   timedReportCallback value w
   = set_lastMeasures (lastMeasures w ++ [value]) w)
  /\ (capture_pending w = true ->
      timedReportCallback value w
      = set_lastMeasures (measure value (lastMeasures w)).1 w).
Proof.
  split.
  - intros Hlen. unfold timedReportCallback, measure.
    rewrite length_app. cbn [length].
    destruct (Nat.ltb_spec (length (lastMeasures w) + 1) 5); [done | lia].
  - unfold capture_pending.
    destruct (_captureTimeout (camera w)) as [t|] eqn:Ht; [|done].
    intros _. by apply (timedReportCallback_pending _ _ t).
Qed.

Lemma reports_that_only_measure_witness :
  timedReportCallback 48 world_idle
  = set_lastMeasures (lastMeasures world_idle ++ [48%float]) world_idle
  /\ timedReportCallback 48 (triggerCapture world_close)
     = set_lastMeasures
         (measure 48 (lastMeasures (triggerCapture world_close))).1
         (triggerCapture world_close).
Proof.
  split.
  - apply (proj1 (reports_that_only_measure 48 world_idle)). simpl. lia.
  - apply (proj2 (reports_that_only_measure 48 (triggerCapture world_close))).
    reflexivity.
Defined.

(** When the standard deviation computed is not a number (the variance
    came out negative), no capture is fired and the aim indicator is
    never turned off: the indicator is turned on if the mean is below
    the threshold, and nothing is done otherwise. *)
Theorem deviation_not_a_number value w avg :
  (measure value (lastMeasures w)).2 = Some (avg, nan) ->
  timedReportCallback value w
  = (if (avg <? THRESHOLD_DISTANCE_MM)%float
     then setTargetPattern true
            (set_lastMeasures (measure value (lastMeasures w)).1 w)
     else set_lastMeasures (measure value (lastMeasures w)).1 w).
Proof.
  intros Hm. unfold timedReportCallback. rewrite Hm.
  replace (nan <? THRESHOLD_MAX_DEVIATION)%float with false by reflexivity.
  replace (THRESHOLD_MAX_DEVIATION <? nan)%float with false by reflexivity.
  rewrite !andb_false_r, orb_false_r.
  by destruct (avg <? THRESHOLD_DISTANCE_MM)%float.
Qed.

Lemma deviation_not_a_number_witness :
  timedReportCallback 0x1.e266666666666p+5 world_far
  = (if (0x1.e266666666666p+5 <? THRESHOLD_DISTANCE_MM)%float
     then setTargetPattern true
            (set_lastMeasures
               (measure 0x1.e266666666666p+5 (lastMeasures world_far)).1
               world_far)
     else set_lastMeasures
            (measure 0x1.e266666666666p+5 (lastMeasures world_far)).1
            world_far).
Proof.
  apply (deviation_not_a_number 0x1.e266666666666p+5 world_far
           0x1.e266666666666p+5).
  vm_compute. reflexivity.
Defined.

(** * The stamp of a capture *)

Lemma number_toString_digits n : Forall is_digit (number_toString n).
Proof.
  unfold number_toString. generalize (Nat.to_uint n). intros d.
  induction d; simpl; constructor; try done; unfold is_digit; simpl; lia.
Qed.

Lemma lit_inj s1 s2 : lit s1 = lit s2 -> s1 = s2.
Proof.
  revert s2. induction s1 as [|a s1 IH]; intros [|b s2]; simpl; try done.
  intros [= Hab Hs]. f_equal; [|by apply IH].
  by rewrite <- (ascii_N_embedding a), <- (ascii_N_embedding b), Hab.
Qed.

Lemma number_toString_inj n m :
  number_toString n = number_toString m -> n = m.
Proof.
  unfold number_toString. intros H%lit_inj.
  apply (f_equal NilEmpty.uint_of_string) in H.
  rewrite !NilEmpty.usu in H. injection H as H.
  apply (f_equal Nat.of_uint) in H. by rewrite !DecimalNat.Unsigned.of_to in H.
Qed.

Lemma two_digits_below_100 n :
  (n < 100)%nat ->
  two_digits n = [48 + N.of_nat (n / 10); 48 + N.of_nat (n mod 10)].
Proof.
  intros Hn.
  assert (Forall (fun n => two_digits n
                           = [48 + N.of_nat (n / 10); 48 + N.of_nat (n mod 10)])
            (seq 0 100)) as Hall.
  { apply (bool_decide_unpack _). by vm_compute. }
  rewrite Forall_forall in Hall. apply Hall. apply elem_of_seq. lia.
Qed.

Lemma two_digits_inj n m :
  (n < 100)%nat -> (m < 100)%nat -> two_digits n = two_digits m -> n = m.
Proof.
  intros Hn Hm. rewrite !two_digits_below_100 by done.
  pose proof (Nat.div_mod_eq n 10) as Dn.
  pose proof (Nat.div_mod_eq m 10) as Dm. revert Dn Dm.
  remember (n / 10)%nat as a eqn:Ea. remember (n mod 10)%nat as b eqn:Eb.
  remember (m / 10)%nat as a' eqn:Ea'. remember (m mod 10)%nat as b' eqn:Eb'.
  intros Dn Dm H. injection H as H1 H2. lia.
Qed.

Lemma digits_until_separator a b x y r r' :
  Forall is_digit a -> Forall is_digit b ->
  ~ is_digit x -> ~ is_digit y ->
  a ++ x :: r = b ++ y :: r' -> a = b /\ r = r'.
Proof.
  intros Ha. revert b. induction Ha as [|c a Hc _ IH]; intros b Hb Hx Hy.
  - destruct Hb as [|d b Hd _]; simpl; [by intros [= _ ->]|].
    intros [= -> _]. done.
  - destruct Hb as [|d b Hd Hb]; simpl.
    + intros [= -> _]. done.
    + intros [= -> H]. destruct (IH b Hb Hx Hy H) as [-> ->]. done.
Qed.

Lemma digits_then_two_digits a b x y n m r r' :
  Forall is_digit a -> Forall is_digit b ->
  ~ is_digit x -> ~ is_digit y ->
  (n < 100)%nat -> (m < 100)%nat ->
  a ++ [x] ++ two_digits n ++ r = b ++ [y] ++ two_digits m ++ r' ->
  a = b /\ n = m /\ r = r'.
Proof.
  intros Ha Hb Hx Hy Hn Hm Heq. cbn [app] in Heq.
  apply digits_until_separator in Heq as [-> Heq]; try done.
  split; [done|].
  assert (length (two_digits n) = length (two_digits m)) as Hlen
    by (by rewrite !two_digits_below_100).
  apply app_inj_1 in Heq as [Hnm ->]; [|done].
  split; [|done]. by apply two_digits_inj.
Qed.

(** Two captures get the same stamp, and so the same three file names,
    only when they are decoded within the same second. *)
Theorem captureResult_stamp_inj now1 now2 :
  clock_date now1 -> clock_date now2 ->
  captureResult_stamp now1 = captureResult_stamp now2 ->
  now1 = now2.
Proof.
  destruct now1 as [y1 mo1 d1 h1 mi1 s1], now2 as [y2 mo2 d2 h2 mi2 s2].
  unfold clock_date, captureResult_stamp. cbn [getFullYear getMonth getDate
    getHours getMinutes getSeconds].
  intros (Hmo1 & Hd1 & Hh1 & Hmi1 & Hs1) (Hmo2 & Hd2 & Hh2 & Hmi2 & Hs2) H.
  change (lit "-") with [45] in H. change (lit "h") with [104] in H.
  change (lit "m") with [109] in H. change (lit "_") with [95] in H.
  rewrite <- !app_assoc in H.
  apply digits_then_two_digits in H as (Hy & Hmo & H);
    [|apply number_toString_digits..|unfold is_digit; lia|unfold is_digit; lia
     |lia|lia].
  apply (digits_then_two_digits [] []) in H as (_ & Hd & H);
    [|constructor..|unfold is_digit; lia|unfold is_digit; lia|lia|lia].
  apply app_inv_head in H.
  apply digits_then_two_digits in H as (Hh & Hmi & H);
    [|apply number_toString_digits..|unfold is_digit; lia|unfold is_digit; lia
     |lia|lia].
  apply app_inv_head, two_digits_inj in H; [|lia..].
  apply number_toString_inj in Hy, Hh.
  f_equal; lia.
Qed.

Example stamp_example :
  captureResult_stamp {| getFullYear := 2024; getMonth := 2; getDate := 7;
                         getHours := 9; getMinutes := 5; getSeconds := 30 |}
  = lit "2024-03-07_9h05m30".
Proof. reflexivity. Qed.

Lemma captureResult_stamp_inj_witness :
  {| getFullYear := 2024; getMonth := 2; getDate := 7;
     getHours := 9; getMinutes := 5; getSeconds := 30 |}
  = {| getFullYear := 2024; getMonth := 2; getDate := 7;
       getHours := 9; getMinutes := 5; getSeconds := 30 |}.
Proof.
  apply captureResult_stamp_inj; [unfold clock_date; simpl; lia..|reflexivity].
Defined.

(** ** Examples *)

Example toString_ascii :
  Buffer.toString (Buffer.from "1P1234") = lit "1P1234".
Proof. reflexivity. Qed.

(** U+20AC is three bytes and one code unit; a truncated sequence and a
    stray continuation byte are one U+FFFD each. *)
Example toString_multibyte :
  Buffer.toString [xe2; x82; xac; x41; xe2; x82; x41; x80]
  = [0x20AC; 0x41; 0xFFFD; 0x41; 0xFFFD]%N.
Proof. reflexivity. Qed.

Example toString_astral :
  Buffer.toString [xf0; x9f; x98; x80] = [0xD83D; 0xDE00]%N.
Proof. reflexivity. Qed.

Example trim_example : trim (lit " 1P12 34  ") = lit "1P12 34".
Proof. reflexivity. Qed.

Example split_example :
  split (chr "|") (lit "GWCR|5||x") = [lit "GWCR"; lit "5"; []; lit "x"].
Proof. reflexivity. Qed.

Example decode_three_segments :
  captureResult_decode answer_three
  = Some (Fields
            (<["mfg_pn" := JStr (lit "1234")]>
               (<["manufacturer" := JStr (lit "acme")]>
                  {["traceability" := JStr (lit "9999")]}))
            [[("mfg_pn", JStr (lit "1234"))];
             [("manufacturer", JStr (lit "acme"))];
             [("traceability", JStr (lit "9999"))]]).
Proof. by vm_compute. Qed.

Example decode_digikey :
  captureResult_decode answer_digikey
  = Some (Fields
            (<["distributor" := JStr (lit "Digi-Key")]>
               {["order_no" := JStr (lit "4455")]})
            [[("distributor", JStr (lit "Digi-Key"))];
             [("order_no", JStr (lit "4455"))]]).
Proof. by vm_compute. Qed.

Example decode_1K_alone :
  captureResult_decode answer_1K_alone
  = Some (Fields {["unknown" := JStr (lit "1K4455")]}
            [[("unknown", JStr (lit "1K4455"))]]).
Proof. by vm_compute. Qed.

Example decode_GWCR :
  captureResult_decode answer_GWCR
  = Some (Fields
            (<["mfg_pn" := JStr (lit "GWCR123")]>
               (<["qty" := JStr (lit "500")]>
                  (<["date_code" := JStr (lit "2214")]>
                     (<["coo" := JStr (lit "MY")]>
                        {["traceability" := JStr (lit "778899")]}))))
            [[("mfg_pn", JStr (lit "GWCR123")); ("qty", JStr (lit "500"));
              ("date_code", JStr (lit "2214")); ("coo", JStr (lit "MY"));
              ("traceability", JStr (lit "778899"))]]).
Proof. by vm_compute. Qed.

Example decode_noread : captureResult_decode answer_noread = Some NoRead.
Proof. by vm_compute. Qed.

(** At the thresholds no rule applies; nor does one when the variance
    computed is negative, as for five measures of 60.3 mm, and the
    square root is not a number. *)
Example controller_at_thresholds :
  TriggerController 50 0.5 = NoAction
  /\ TriggerController 60 1 = NoAction
  /\ TriggerController 50 2 = Arm
  /\ TriggerController 60 0.5 = Disarm
  /\ statistics (replicate 5 0x1.e266666666666p+5%float)
     = (0x1.e266666666666p+5%float, nan)
  /\ TriggerController 0x1.e266666666666p+5 nan = NoAction.
Proof. by vm_compute. Qed.
